(** * WAVE (RIFF/PCM) reader and writer of blurt_cpp_80211/wave.cc

    A shallow embedding of [wave.cc]: the [Wave_read] and [Wave_write]
    classes and the two entry points [readwave] and [writewave].

    Conventions of the embedding.
    - [size_t] values are [N]; [int32_t] values are [Z] with the wrap-around
      written out ([wrap32]); bytes are [Byte.byte]; the host is little-endian
      (the code [memcpy]s integers to and from byte buffers).
    - [float] is IEEE-754 binary32, round to nearest even: the Standard
      Library's [spec_float] at precision 24 and maximal exponent 128.
    - The code is modelled as built with exceptions ([throw] is not redefined
      to [std::cerr <<]); a thrown string literal or standard-library
      exception is an [error], an operation whose behaviour C++ leaves
      undefined is a [fault].
    - [chunk.h] is not part of the sources: the chunk accessor is modelled
      from its contract (see [Chunk]). *)

From Stdlib Require Import ZArith NArith List String Strings.Byte QArith Qpower Qabs Qround Lia.
From Stdlib Require Import Floats.SpecFloat.
From stdpp Require Import base option list gmap strings.

Local Open Scope Z_scope.
Set Warnings "-register-all".

#[global] Instance byte_eq_decision : EqDecision byte := Byte.byte_eq_dec.

(** ** Results of fallible code *)

(** The thrown string literals of [wave.cc], one constructor per message
    (named after the error taxonomy of the specification), and the exception
    of the standard library that [writewave] can meet. *)
Inductive error : Type :=
  | FormatError            (* "file does not start with RIFF id", "not a WAVE file" *)
  | UnsupportedFormatError (* "unknown format" *)
  | OrderError             (* "data chunk before fmt chunk" *)
  | MissingChunkError      (* "fmt chunk and/or data chunk missing" *)
  | ValidationError        (* "bad # of channels", "bad sample width", "bad frame rate",
                              "# channels not specified", "sample width not specified",
                              "sampling rate not specified" *)
  | StateError             (* "cannot change parameters after starting to write" *)
  | AllocationError.       (* std::bad_alloc or std::length_error, thrown by the standard
                              library when a [std::vector] cannot get its storage *)

(** What stops a computation without an exception: a failed read of the
    chunk accessor, or an operation on which the C++ standard puts no
    requirement. *)
Inductive fault : Type :=
  | AccessorFailure     (* a read of the chunk accessor failed *)
  | DivisionByZero      (* integer division by zero *)
  | FloatToIntRange     (* float to int32_t conversion of a NaN or of a value out of range *)
  | ShiftRange          (* shift by at least the width of the type *)
  | BufferOverrun       (* memcpy beyond the object or buffer *)
  | InvalidPointer      (* use of a pointer that was never set *)
  | Terminate.          (* std::terminate: a destructor throws during stack unwinding *)

Inductive result (A : Type) : Type :=
  | Ok (a : A)
  | Throw (e : error)
  | Fault (f : fault).
Arguments Ok {A} a.
Arguments Throw {A} e.
Arguments Fault {A} f.

#[global] Instance result_ret : MRet result := fun A a => Ok a.
#[global] Instance result_bind : MBind result := fun A B f r =>
  match r with
  | Ok a => f a
  | Throw e => Throw e
  | Fault f => Fault f
  end.

(** A counted [for] loop, [for (i = start; i < start + n; i++) body], threading
    the state of the loop through the result monad. *)
Fixpoint for_from {S : Type} (start : nat) (n : nat)
    (body : nat -> S -> result S) (s : S) : result S :=
  match n with
  | O => Ok s
  | Datatypes.S n' => s' ← body start s; for_from (Datatypes.S start) n' body s'
  end.

Definition for_loop {S : Type} (n : nat) (body : nat -> S -> result S) (s : S) : result S :=
  for_from 0 n body s.

(** ** Machine integers and bytes *)

(** Two's complement reading of the low 32, respectively 16, bits. *)
Definition wrap32 (z : Z) : Z := (z + 2^31) mod 2^32 - 2^31.
Definition wrap16 (z : Z) : Z := (z + 2^15) mod 2^16 - 2^15.

Definition in_int32 (z : Z) : bool := (- 2^31 <=? z) && (z <? 2^31).

Definition byte_of_Z (z : Z) : byte :=
  match Byte.of_N (Z.to_N (z mod 256)) with
  | Some b => b
  | None => x00
  end.

(** [memcpy(dst, &v, n)] on a little-endian host: the [n] low bytes of the
    two's complement representation of [v], least significant first. *)
Fixpoint le_bytes (n : nat) (v : Z) : list byte :=
  match n with
  | O => []
  | Datatypes.S n' => byte_of_Z v :: le_bytes n' (v / 256)
  end.

(** [memcpy(&v, src, n)] into a zero-initialised unsigned object. *)
Fixpoint le_value (bs : list byte) : N :=
  match bs with
  | [] => 0%N
  | b :: bs' => (Byte.to_N b + 256 * le_value bs')%N
  end.

(** ** binary32 floats *)

Module F32.
Definition prec : Z := 24.
Definition emax : Z := 128.

Definition float : Type := spec_float.

Definition add : float -> float -> float := SFadd prec emax.
Definition mul : float -> float -> float := SFmul prec emax.
Definition div : float -> float -> float := SFdiv prec emax.
Definition ltb : float -> float -> bool := SFltb.

(** Conversion of an integer to [float] (round to nearest even). *)
Definition of_Z (z : Z) : float := binary_normalize prec emax z 0 false.

Definition zero : float := S754_zero false.
Definition one : float := Eval cbv in of_Z 1.
Definition minus_one : float := Eval cbv in of_Z (-1).

(** [int32_t(x)]: truncation toward zero; undefined when the truncated value
    is not an [int32_t], or [x] is a NaN or an infinity. *)
Definition to_int32 (x : float) : result Z :=
  match x with
  | S754_zero _ => Ok 0
  | S754_finite s m e =>
      let t := cond_Zopp s (Z.shiftl (Zpos m) e) in
      if in_int32 t then Ok t else Fault FloatToIntRange
  | _ => Fault FloatToIntRange
  end.

(** The rational number a float stands for (0 for NaN and infinities,
    which have none). *)
Definition to_Q (x : float) : Q :=
  match x with
  | S754_finite s m e => (inject_Z (cond_Zopp s (Zpos m)) * Qpower 2 e)%Q
  | _ => 0%Q
  end.

Definition is_nan (x : float) : bool :=
  match x with S754_nan => true | _ => false end.

Definition valid (x : float) : bool := valid_binary prec emax x.
End F32.

Abbreviation float := F32.float.

(** Unsigned division of [size_t] values. *)
Definition udiv (a b : N) : result N :=
  if (b =? 0)%N then Fault DivisionByZero else Ok (a / b)%N.

(** ** The chunk accessor *)

(** Modelled from the spec: the chunk accessor ([Chunk] of [chunk.h], whose
    source is missing).  A chunk has a 4-character identifier and a declared
    byte length; [payload] holds the bytes of the chunk that a sequential
    [read] has not consumed yet (for a chunk being written: the bytes written
    so far); [subchunks] is the ordered sequence of child chunks, in file
    order, that [parseSubchunks] finds (respectively [addSubchunk] creates). *)
Inductive Chunk : Type := mkChunk {
  chunk_id : string;
  chunk_size : N;
  chunk_payload : list byte;
  chunk_subchunks : list Chunk }.

(** Modelled from the spec: [read(dest, nBytes)], a sequential read from the
    current position, which fails if the chunk is exhausted. *)
Definition chunk_read (c : Chunk) (n : N) : result (list byte * Chunk) :=
  if (n <=? N.of_nat (length (chunk_payload c)))%N then
    Ok (take (N.to_nat n) (chunk_payload c),
        mkChunk (chunk_id c) (chunk_size c) (drop (N.to_nat n) (chunk_payload c))
                (chunk_subchunks c))
  else Fault AccessorFailure.

(** Modelled from the spec: [write(src, nBytes)], a sequential append. *)
Definition chunk_write (c : Chunk) (bs : list byte) : Chunk :=
  mkChunk (chunk_id c) (chunk_size c + N.of_nat (length bs)) (chunk_payload c ++ bs)
          (chunk_subchunks c).

(** Modelled from the spec: [addSubchunk(id)] creates a new writable child
    chunk; the result is the parent and the position of the child in it. *)
Definition addSubchunk (c : Chunk) (name : string) : Chunk * nat :=
  (mkChunk (chunk_id c) (chunk_size c) (chunk_payload c)
           (chunk_subchunks c ++ [mkChunk name 0 [] []]),
   length (chunk_subchunks c)).

Definition set_subchunk (c : Chunk) (i : nat) (sub : Chunk) : Chunk :=
  mkChunk (chunk_id c) (chunk_size c) (chunk_payload c) (<[i := sub]> (chunk_subchunks c)).

(** The chunk a freshly opened output stream starts with: [Chunk(file, "RIFF")]. *)
Definition new_chunk (name : string) : Chunk := mkChunk name 0 [] [].

Definition bytes_of_string (s : string) : list byte := list_byte_of_string s.

(** ** The file system, as far as [readwave] and [writewave] see it *)

(** Modelled from the spec: a file that can be opened for reading presents
    itself through the chunk accessor as its outermost chunk; a path in
    [unwritable] cannot be opened for writing.  Closing the outermost chunk
    of an output stream stores it under the path. *)
Record filesystem : Type := mkFs {
  files : gmap string Chunk;
  unwritable : gset string }.

Definition ifstream_open (fs : filesystem) (filename : string) : option Chunk :=
  files fs !! filename.

Definition ofstream_is_open (fs : filesystem) (filename : string) : bool :=
  bool_decide (filename ∉ unwritable fs).

Definition store_file (fs : filesystem) (filename : string) (c : Chunk) : filesystem :=
  mkFs (<[filename := c]> (files fs)) (unwritable fs).

(** ** class Wave_read *)

Definition WAVE_FORMAT_PCM : N := 1.

Module Wave_read.
(** The members of the class; [data_chunk] points into
    [file_chunk.subchunks] and is modelled as a position in it ([None]
    while it is not set). Members that the constructor has not assigned
    yet are indeterminate in C++; the model starts them at 0 and the
    empty string. *)
Record t : Type := mk {
  framesize : N;
  file_chunk : Chunk;
  data_chunk : option nat;
  comptype : string;
  compname : string;
  nframes : N;
  nchannels : N;
  framerate : N;
  sampwidth : N }.

Definition init (file : Chunk) : t := mk 0 file None "" "" 0 0 0 0.

Definition set_file_chunk (c : Chunk) (self : t) : t :=
  mk (framesize self) c (data_chunk self) (comptype self) (compname self)
     (nframes self) (nchannels self) (framerate self) (sampwidth self).

(** [read_fmt_chunk(Chunk &chunk)]: the chunk is passed by reference, the
    model returns its new state next to the new state of the object. *)
Definition read_fmt_chunk (chunk : Chunk) (self : t) : result (Chunk * t) :=
  '(fmt, chunk) ← chunk_read chunk 14;
  let wFormatTag := le_value (take 2 fmt) in
  let wChannels := le_value (take 2 (drop 2 fmt)) in
  let dwFrameRate := le_value (take 4 (drop 4 fmt)) in
  if (wFormatTag =? WAVE_FORMAT_PCM)%N then
    '(bits, chunk) ← chunk_read chunk 2;
    let sampwidth := ((le_value bits + 7) / 8)%N in
    Ok (chunk,
        mk (wChannels * sampwidth) (file_chunk self) (data_chunk self)
           "NONE" "not compressed" (nframes self) wChannels dwFrameRate sampwidth)
  else Throw UnsupportedFormatError.

(** The loop of the constructor over [file_chunk.subchunks], from position
    [i] on; [cs] are the sub-chunks from [i] on.  The result carries the two
    flags [fmt_chunk_read] and [data_chunk_read]. *)
Fixpoint scan (cs : list Chunk) (i : nat) (fmt_chunk_read : bool) (self : t)
    : result (bool * bool * t) :=
  match cs with
  | [] => Ok (fmt_chunk_read, false, self)
  | chunk :: cs' =>
      if String.eqb (chunk_id chunk) "fmt " then
        '(chunk', self) ← read_fmt_chunk chunk self;
        scan cs' (S i) true (set_file_chunk (set_subchunk (file_chunk self) i chunk') self)
      else if String.eqb (chunk_id chunk) "data" then
        if negb fmt_chunk_read then Throw OrderError
        else
          nframes ← udiv (chunk_size chunk) (framesize self);
          Ok (fmt_chunk_read, true,
              mk (framesize self) (file_chunk self) (Some i) (comptype self)
                 (compname self) nframes (nchannels self) (framerate self)
                 (sampwidth self))
      else scan cs' (S i) fmt_chunk_read self
  end.

(** [Wave_read(std::ifstream &file)]. *)
Definition construct (file : Chunk) : result t :=
  if negb (String.eqb (chunk_id file) "RIFF") then Throw FormatError
  else
    '(format, file) ← chunk_read file 4;
    if negb (bool_decide (format = bytes_of_string "WAVE")) then Throw FormatError
    else
      '(fmt_chunk_read, data_chunk_read, self) ←
        scan (chunk_subchunks file) 0 false (init file);
      if negb fmt_chunk_read || negb data_chunk_read then Throw MissingChunkError
      else Ok self.

(** [readframes(buffer, nframes_)]: the bytes read into [buffer] and the new
    state of the object. *)
Definition readframes (nframes_ : N) (self : t) : result (list byte * t) :=
  match data_chunk self with
  | None => Fault InvalidPointer
  | Some i =>
      match chunk_subchunks (file_chunk self) !! i with
      | None => Fault InvalidPointer
      | Some chunk =>
          '(buffer, chunk') ← chunk_read chunk (nframes_ * framesize self);
          Ok (buffer, set_file_chunk (set_subchunk (file_chunk self) i chunk') self)
      end
  end.
End Wave_read.

(** ** readwave *)

(** [int32_t sample = 0; memcpy(&sample, &readbuf[j*sampwidth], sampwidth);]
    followed by the sign correction for the width. *)
Definition decode_sample (sampwidth : N) (bytes : list byte) : result Z :=
  if (4 <? sampwidth)%N then Fault BufferOverrun
  else
    let sample := wrap32 (Z.of_N (le_value bytes)) in
    Ok (if (sampwidth =? 1)%N then sample - 0x80
        else if (sampwidth =? 2)%N then wrap16 sample
        else if (sampwidth =? 3)%N then Z.shiftr (wrap32 (Z.shiftl sample 8)) 8
        else sample).

(** The inner loop of [readwave] over the channels of one frame. *)
Definition decode_frame (sampwidth nchannels : N) (scale : float) (readbuf : list byte)
    : result float :=
  for_loop (N.to_nat nchannels)
    (fun j acc =>
       sample ← decode_sample sampwidth
                  (take (N.to_nat sampwidth) (drop (j * N.to_nat sampwidth) readbuf));
       Ok (F32.add acc (F32.mul (F32.of_Z sample) scale)))
    F32.zero.

(** The body of the outer loop of [readwave], for the frame [i]; the state is
    the reader and the [output] vector. *)
Definition decode_frames_body (sampwidth nchannels : N) (scale : float) (i : nat)
    (state : Wave_read.t * list float) : result (Wave_read.t * list float) :=
  let '(f, output) := state in
  '(readbuf, f) ← Wave_read.readframes 1 f;
  acc ← decode_frame sampwidth nchannels scale readbuf;
  Ok (f, <[i := acc]> output).

(** The outer loop of [readwave] over the frames. *)
Definition decode_frames (f : Wave_read.t) (output : list float)
    : result (Wave_read.t * list float) :=
  let nchannels := Wave_read.nchannels f in
  let nframes := Wave_read.nframes f in
  let sampwidth := Wave_read.sampwidth f in
  let scale := F32.div F32.one (F32.of_Z (Z.of_N nchannels)) in
  for_loop (N.to_nat nframes) (decode_frames_body sampwidth nchannels scale) (f, output).

(** How a call of [readwave] ends, with the objects behind the two reference
    parameters [output] and [Fs] as the call leaves them. *)
Inductive readwave_outcome : Type :=
  | Returned (b : bool) (output : list float) (Fs : float)
  | Thrown (e : error) (output : list float) (Fs : float)
  | Stopped (f : fault).

Definition readwave (fs : filesystem) (filename : string) (output : list float) (Fs : float)
    : readwave_outcome :=
  match ifstream_open fs filename with
  | None => Returned false [] F32.zero
  | Some file =>
      match Wave_read.construct file with
      | Throw e => Thrown e output Fs
      | Fault f => Stopped f
      | Ok f =>
          let Fs := F32.of_Z (Z.of_N (Wave_read.framerate f)) in
          let output := resize (N.to_nat (Wave_read.nframes f)) F32.zero output in
          match decode_frames f output with
          | Ok (_, output) => Returned true output Fs
          | Throw e => Thrown e output Fs
          | Fault f => Stopped f
          end
      end
  end.

(** ** class Wave_write *)

(** A member function of [Wave_write] that throws has not modified the object
    before the [throw]: when [m self] is [Throw e], the object is still [self]. *)
Module Wave_write.
Record t : Type := mk {
  headerwritten : bool;
  file_chunk : Chunk;
  data_chunk : option nat;
  nframes : N;
  nchannels : N;
  framerate : N;
  sampwidth : N;
  comptype : string;
  compname : string }.

(** [Wave_write(std::ofstream &file)]. *)
Definition construct : t :=
  mk false (chunk_write (new_chunk "RIFF") (bytes_of_string "WAVE")) None
     0 0 0 0 "NONE" "not compressed".

Definition setnchannels (nchannels_ : N) (self : t) : result t :=
  if headerwritten self then Throw StateError
  else if (nchannels_ <? 1)%N then Throw ValidationError
  else Ok (mk (headerwritten self) (file_chunk self) (data_chunk self) (nframes self)
              nchannels_ (framerate self) (sampwidth self) (comptype self) (compname self)).

Definition setsampwidth (sampwidth_ : N) (self : t) : result t :=
  if headerwritten self then Throw StateError
  else if (sampwidth_ <? 1)%N || (4 <? sampwidth_)%N then Throw ValidationError
  else Ok (mk (headerwritten self) (file_chunk self) (data_chunk self) (nframes self)
              (nchannels self) (framerate self) sampwidth_ (comptype self) (compname self)).

Definition setframerate (framerate_ : N) (self : t) : result t :=
  if headerwritten self then Throw StateError
  else if (framerate_ <=? 0)%N then Throw ValidationError
  else Ok (mk (headerwritten self) (file_chunk self) (data_chunk self) (nframes self)
              (nchannels self) framerate_ (sampwidth self) (comptype self) (compname self)).

(** The 16 bytes of the [WaveFormatEx] structure that [_ensure_header_written]
    fills in, with the casts to the widths of its fields. *)
Definition fmt_bytes (self : t) : list byte :=
  le_bytes 2 (Z.of_N WAVE_FORMAT_PCM)
  ++ le_bytes 2 (Z.of_N (nchannels self mod 2^16))
  ++ le_bytes 4 (Z.of_N (framerate self mod 2^32))
  ++ le_bytes 4 (Z.of_N ((nchannels self * framerate self * sampwidth self) mod 2^32))
  ++ le_bytes 2 (Z.of_N ((nchannels self * sampwidth self) mod 2^16))
  ++ le_bytes 2 (Z.of_N ((sampwidth self * 8) mod 2^16)).

Definition _ensure_header_written (self : t) : result t :=
  if negb (headerwritten self) then
    if (nchannels self =? 0)%N then Throw ValidationError
    else if (sampwidth self =? 0)%N then Throw ValidationError
    else if (framerate self =? 0)%N then Throw ValidationError
    else
      let '(file_chunk, fmt_chunk) := addSubchunk (file_chunk self) "fmt " in
      let file_chunk :=
        set_subchunk file_chunk fmt_chunk
          (chunk_write (new_chunk "fmt ") (fmt_bytes self)) in
      let '(file_chunk, data_chunk) := addSubchunk file_chunk "data" in
      Ok (mk true file_chunk (Some data_chunk) (nframes self) (nchannels self)
             (framerate self) (sampwidth self) (comptype self) (compname self))
  else Ok self.

(** [writeframes(data, nframes_)]; [data] is the buffer behind the pointer. *)
Definition writeframes (data : list byte) (nframes_ : N) (self : t) : result t :=
  let bytes := (nframes_ * sampwidth self * nchannels self)%N in
  self ← _ensure_header_written self;
  match data_chunk self with
  | None => Fault InvalidPointer
  | Some i =>
      match chunk_subchunks (file_chunk self) !! i with
      | None => Fault InvalidPointer
      | Some chunk =>
          if (bytes <=? N.of_nat (length data))%N then
            Ok (mk (headerwritten self)
                   (set_subchunk (file_chunk self) i
                      (chunk_write chunk (take (N.to_nat bytes) data)))
                   (data_chunk self) (nframes self) (nchannels self) (framerate self)
                   (sampwidth self) (comptype self) (compname self))
          else Fault BufferOverrun
      end
  end.

(** [close()]: the header is written if it was not, and the outermost chunk
    is closed; its final state is [file_chunk] of the result. *)
Definition close (self : t) : result t := _ensure_header_written self.

(** The object after a call of the member function [m], and how the call
    ended. *)
Definition call (m : t -> result t) (self : t) : t * result unit :=
  match m self with
  | Ok self' => (self', Ok ())
  | Throw e => (self, Throw e)
  | Fault f => (self, Fault f)
  end.

(** A call of [m] on the local object [f] of a function, followed by the
    rest [k] of the function.  When the call throws, the stack is unwound
    and the destructor [~Wave_write()] runs [close()] on the object: if
    that throws as well, the program is terminated. *)
Definition on_object {A : Type} (m : t -> result t) (f : t) (k : t -> result A)
    : result A :=
  match m f with
  | Ok f' => k f'
  | Throw e =>
      match close f with
      | Throw _ => Fault Terminate
      | _ => Throw e
      end
  | Fault x => Fault x
  end.
End Wave_write.

(** ** writewave *)

(** [float scale = 1ull << (8*sampwidth)]. *)
Definition quantization_scale (sampwidth : N) : result float :=
  let shift := ((8 * sampwidth) mod 2^64)%N in
  if (64 <=? shift)%N then Fault ShiftRange
  else Ok (F32.of_Z (Z.shiftl 1 (Z.of_N shift) mod 2^64)).

(** [std::vector<char> quantized_input(input.size()*sampwidth)]: the number
    of bytes asked for is the product in [size_t].  A request of [2^61] bytes
    or more is refused by the standard library, which throws.  The code
    gets here with a sample width of 8 or more only if that width is [2^61]
    or more, a smaller one making the shift of the line before undefined.
    For a sample width below 8 the buffer has fewer than 8 bytes for each
    [float] of the caller's vector, and the model takes the free store to
    have room for it, as it does for every other allocation. *)
Definition new_quantized_input (input_size sampwidth : N) : result N :=
  let n := ((input_size * sampwidth) mod 2^64)%N in
  if (8 <=? sampwidth)%N && (2^61 <=? n)%N then Throw AllocationError else Ok n.

(** One iteration of the quantization loop: the bytes that the [memcpy]
    stores at [quantized_input[i*sampwidth]]. *)
Definition quantize (scale : float) (sampwidth : N) (x : float) : result (list byte) :=
  let clipped_input := x in
  let clipped_input := if F32.ltb F32.one clipped_input then F32.one else clipped_input in
  let clipped_input :=
    if F32.ltb clipped_input F32.minus_one then F32.minus_one else clipped_input in
  t ← F32.to_int32 (F32.add (F32.mul clipped_input scale) F32.one);
  let sample := Z.shiftr t 1 in
  let sample := if (sampwidth =? 1)%N then sample + 0x80 else sample in
  if (4 <? sampwidth)%N then Fault BufferOverrun
  else Ok (le_bytes (N.to_nat sampwidth) sample).

(** The quantization loop: every [sampwidth] bytes of [quantized_input] are
    written once, in the order of the input. *)
Fixpoint quantize_input (scale : float) (sampwidth : N) (input : list float)
    : result (list byte) :=
  match input with
  | [] => Ok []
  | x :: input' =>
      bytes ← quantize scale sampwidth x;
      rest ← quantize_input scale sampwidth input';
      Ok (bytes ++ rest)
  end.

(** [writewave]; the result is the returned [bool] and the file system after
    the call. *)
Definition writewave (fs : filesystem) (filename : string) (input : list float)
    (Fs sampwidth nchannels : N) : result (bool * filesystem) :=
  if negb (ofstream_is_open fs filename) then Ok (false, fs)
  else
    nframes ← udiv (N.of_nat (length input)) nchannels;
    scale ← quantization_scale sampwidth;
    _ ← new_quantized_input (N.of_nat (length input)) sampwidth;
    quantized_input ← quantize_input scale sampwidth input;
    let f := Wave_write.construct in
    Wave_write.on_object (Wave_write.setnchannels nchannels) f (fun f =>
    Wave_write.on_object (Wave_write.setsampwidth sampwidth) f (fun f =>
    Wave_write.on_object (Wave_write.setframerate Fs) f (fun f =>
    Wave_write.on_object (Wave_write.writeframes quantized_input nframes) f (fun f =>
    Wave_write.on_object Wave_write.close f (fun f =>
    Ok (true, store_file fs filename (Wave_write.file_chunk f))))))).

Definition half : float := S754_finite false 8388608 (-24).

Definition fs0 : filesystem := mkFs ∅ ∅.

(** * Definitions used by the statements *)

Definition wrap_width (sampwidth : N) (z : Z) : Z :=
  let half_range := 2 ^ (8 * Z.of_N sampwidth - 1) in
  (z + half_range) mod (2 * half_range) - half_range.

Definition format_fields (self : Wave_write.t) : N * N * N :=
  (Wave_write.nchannels self, Wave_write.sampwidth self, Wave_write.framerate self).

Definition fs_locked : filesystem := mkFs ∅ {["out.wav"%string]}.

(** The outermost chunk is a RIFF chunk whose payload starts with "WAVE". *)
Definition is_riff_wave (file : Chunk) : Prop :=
  chunk_id file = "RIFF"%string /\
  take 4 (chunk_payload file) = bytes_of_string "WAVE".

Definition after_read (n : nat) (c : Chunk) : Chunk :=
  mkChunk (chunk_id c) (chunk_size c) (drop n (chunk_payload c)) (chunk_subchunks c).

(** The fields of a [fmt ] chunk, as [read_fmt_chunk] finds them. *)
Definition fmt_tag (c : Chunk) : N := le_value (take 2 (chunk_payload c)).

Definition fmt_bits (c : Chunk) : N := le_value (take 2 (drop 14 (chunk_payload c))).

(** A [fmt ] chunk of uncompressed PCM that holds the 16 bytes of the format. *)
Definition pcm_fmt (c : Chunk) : Prop :=
  (16 <= length (chunk_payload c))%nat /\ fmt_tag c = WAVE_FORMAT_PCM.

Definition riff (subchunks : list Chunk) : Chunk :=
  mkChunk "RIFF" 0 (bytes_of_string "WAVE") subchunks.

Definition pcm_header_mono16 : list byte :=
  [x01; x00; x01; x00; x40; x1f; x00; x00; x80; x3e; x00; x00; x02; x00; x10; x00].

Definition adpcm_header : list byte :=
  [x02; x00; x01; x00; x40; x1f; x00; x00; x80; x3e; x00; x00; x02; x00; x10; x00].

Definition file_data_first : Chunk :=
  riff [mkChunk "LIST" 0 [] []; mkChunk "data" 2 [x00; x80] [];
        mkChunk "fmt " 16 pcm_header_mono16 []].

Definition file_adpcm : Chunk :=
  riff [mkChunk "fmt " 16 adpcm_header []; mkChunk "data" 2 [x00; x80] []].

(** The chunk behind the pointer [data_chunk] of a reader. *)
Definition reader_data (f : Wave_read.t) : option Chunk :=
  match Wave_read.data_chunk f with
  | Some i => chunk_subchunks (Wave_read.file_chunk f) !! i
  | None => None
  end.



Definition file_odd : Chunk :=
  riff [mkChunk "fmt " 16 pcm_header_mono16 [];
        mkChunk "data" 5 [x00; x40; x00; xc0; x7f] []].


(** The 16 bytes of the [fmt ] payload for the given format. *)
Definition fmt_payload (nchannels Fs sampwidth : N) : list byte :=
  Wave_write.fmt_bytes
    (Wave_write.mk false (new_chunk "RIFF") None 0 nchannels Fs sampwidth "" "").

(** The outermost chunk that [writewave] closes. *)
Definition written_file (nchannels Fs sampwidth : N) (data : list byte) : Chunk :=
  mkChunk "RIFF" 4 (bytes_of_string "WAVE")
    [mkChunk "fmt " 16 (fmt_payload nchannels Fs sampwidth) [];
     mkChunk "data" (N.of_nat (length data)) data []].

(** The payload of the [data] chunk of a file written by [writewave]. *)
Definition written_data (fs : filesystem) (filename : string) : option (list byte) :=
  match files fs !! filename with
  | Some file =>
      match chunk_subchunks file !! 1%nat with
      | Some c => Some (chunk_payload c)
      | None => None
      end
  | None => None
  end.

(** What the data payload would be if every input value were written once
    per channel. *)
Fixpoint replicated_payload (scale : float) (sampwidth : N) (nchannels : nat)
    (input : list float) : result (list byte) :=
  match input with
  | [] => Ok []
  | x :: input' =>
      bytes ← quantize scale sampwidth x;
      rest ← replicated_payload scale sampwidth nchannels input';
      Ok (concat (replicate nchannels bytes) ++ rest)
  end.

(** The claim C3 as it is stated: the data payload holds the bytes of every
    input value once per channel. *)
Definition writes_replicated (input : list float) (Fs w c : N) : Prop :=
  forall scale fs',
    quantization_scale w = Ok scale ->
    writewave fs0 "a.wav" input Fs w c = Ok (true, fs') ->
    exists data, written_data fs' "a.wav" = Some data /\
                 replicated_payload scale w (N.to_nat c) input = Ok data.

(** The exponent of the last place of a binary32 number whose leading bit
    has the exponent [e - 1]. *)
Definition fexp32 (e : Z) : Z := fexp F32.prec F32.emax e.

(** The value of a float in units of [2^-149], the smallest positive
    binary32 number: every finite binary32 value is a whole number of them. *)
Definition units (x : float) : Z :=
  match x with
  | S754_finite s m e => cond_Zopp s (Zpos m * 2 ^ (e + 149))
  | _ => 0
  end.

(** A float that is a zero or a finite number. *)
Definition is_finite (x : float) : bool :=
  match x with
  | S754_zero _ | S754_finite _ _ _ => true
  | _ => false
  end.

(** The two clipping assignments of [writewave]. *)
Definition clip (x : float) : float :=
  let clipped_input := if F32.ltb F32.one x then F32.one else x in
  if F32.ltb clipped_input F32.minus_one then F32.minus_one else clipped_input.

(** The value of [sample] after the shift, before the bias of width 1. *)
Definition sample_of (scale : float) (x : float) : result Z :=
  t ← F32.to_int32 (F32.add (F32.mul (clip x) scale) F32.one);
  Ok (Z.shiftr t 1).


(** The bytes of one sample as the [memcpy] of [writewave] stores them. *)
Definition sample_bytes (w : N) (q : Z) : list byte :=
  le_bytes (N.to_nat w) (if (w =? 1)%N then q + 0x80 else q).

Definition mono_scale : float := F32.div F32.one (F32.of_Z (Z.of_N 1)).

(** The factor [2^k] as a float, for [k] from 0 to 100. *)
Definition pow2_float (k : Z) : float := S754_finite false 8388608 (k - 23).

Definition unit_one : Z := 2 ^ 149.

(** The largest magnitude of a sample of [w] bytes, [2^(8w-1)]. *)
Definition full_scale (w : N) : Z := 2 ^ (8 * Z.of_N w - 1).




(** The signed integer that the [w] little-endian bytes of one channel
    stand for: the unsigned value minus the bias [0x80] at the width 1, the
    two's complement value at the other widths. *)
Definition signed_sample (w : N) (frame : list byte) : Z :=
  let u := Z.of_N (le_value frame) in
  if (w =? 1)%N then u - 0x80
  else if u <? full_scale w then u else u - 2 * full_scale w.

(** The value that the loop over the channels of one frame accumulates:
    the signed sample of every channel times [scale], added up from zero. *)
Definition downmix (w : N) (scale : float) (channels : list (list byte)) : float :=
  fold_left (fun acc channel => F32.add acc (F32.mul (F32.of_Z (signed_sample w channel)) scale))
    channels F32.zero.



(** The formula of the quantization on exact numbers,
    [floor((clipped * 2^(8w) + 1) / 2)], to compare the code with. *)
Definition floor_sample (w : N) (clipped : Q) : Z :=
  Qfloor ((clipped * inject_Z (2 ^ (8 * Z.of_N w)) + 1) / 2).

(** The bytes that [writewave] quantizes the only value of a mono input to. *)
Definition quantized (w : N) (x : float) : result (list byte) :=
  scale ← quantization_scale w; quantize scale w x.

(** [-1.5 / 65536]. *)
Definition small_negative : float := S754_finite true 12582912 (-39).

(** The channel count and the frame rate of a [fmt ] chunk, as
    [read_fmt_chunk] finds them. *)
Definition fmt_channels (c : Chunk) : N := le_value (take 2 (drop 2 (chunk_payload c))).

Definition fmt_rate (c : Chunk) : N := le_value (take 4 (drop 4 (chunk_payload c))).

(** A container with a format and no data. *)
Definition file_fmt_only : Chunk :=
  riff [mkChunk "LIST" 0 [] []; mkChunk "fmt " 16 pcm_header_mono16 []].

(** A mono 16-bit file with chunks of other names around the format, and
    with a second, compressed, format after the data. *)
Definition file_with_extras : Chunk :=
  riff [mkChunk "LIST" 0 [] []; mkChunk "fmt " 16 pcm_header_mono16 [];
        mkChunk "fact" 0 [] []; mkChunk "data" 4 [x00; x40; x00; xc0] [];
        mkChunk "fmt " 16 adpcm_header []].

(** A PCM format of 0 channels. *)
Definition pcm_header_no_channels : list byte :=
  [x01; x00; x00; x00; x40; x1f; x00; x00; x80; x3e; x00; x00; x02; x00; x10; x00].

Definition file_no_channels : Chunk :=
  riff [mkChunk "fmt " 16 pcm_header_no_channels []; mkChunk "data" 2 [x00; x40] []].

(** A PCM format of 40 bits per sample. *)
Definition pcm_header_mono40 : list byte :=
  [x01; x00; x01; x00; x40; x1f; x00; x00; x40; x9c; x00; x00; x05; x00; x28; x00].

Definition file_mono40 : Chunk :=
  riff [mkChunk "fmt " 16 pcm_header_mono40 [];
        mkChunk "data" 5 [x00; x00; x00; x00; x00] []].

(** A writer after the three setters, before the first frame. *)
Definition writer_mono16 : Wave_write.t :=
  Wave_write.mk false (chunk_write (new_chunk "RIFF") (bytes_of_string "WAVE")) None
    0 1 8000 2 "NONE" "not compressed".



(** * Properties *)

(** ** Bytes and machine integers *)


Lemma length_le_bytes (n : nat) (v : Z) : length (le_bytes n v) = n.
Proof. revert v. induction n as [|n IH]; intros v; simpl; [reflexivity | now rewrite IH]. Qed.


Lemma le_value_bound (bs : list byte) : (le_value bs < 256 ^ N.of_nat (length bs))%N.
Proof.
  induction bs as [|b bs IH].
  - simpl. lia.
  - cbn [le_value length]. rewrite Nat2N.inj_succ, N.pow_succ_r by lia.
    pose proof (Byte.to_N_bounded b). lia.
Qed.

Lemma width_cases (w : N) : (1 <= w <= 4)%N -> w = 1%N \/ w = 2%N \/ w = 3%N \/ w = 4%N.
Proof. lia. Qed.

(** Evaluates the closed powers of the goal and of the hypotheses. *)
Ltac eval_pows :=
  repeat match goal with
  | |- context [Z.pow ?a ?b] =>
      let v := eval vm_compute in (Z.pow a b) in
      progress change (Z.pow a b) with v
  | H : context [Z.pow ?a ?b] |- _ =>
      let v := eval vm_compute in (Z.pow a b) in
      progress change (Z.pow a b) with v in H
  end.

Ltac solve_wrap :=
  unfold wrap_width, wrap32, wrap16 in *;
  rewrite ?Z.shiftl_mul_pow2, ?Z.shiftr_div_pow2 by lia;
  cbn [Z.of_N] in *; eval_pows;
  Z.to_euclidean_division_equations; lia.

Lemma decode_sample_spec (w : N) (bs : list byte) :
  (1 <= w <= 4)%N -> length bs = N.to_nat w ->
  decode_sample w bs =
    Ok (if (w =? 1)%N then Z.of_N (le_value bs) - 128
        else wrap_width w (Z.of_N (le_value bs))).
Proof.
  intros Hw Hlen.
  pose proof (le_value_bound bs) as Hb. rewrite Hlen, N2Nat.id in Hb.
  assert (Hu : 0 <= Z.of_N (le_value bs) < 256 ^ Z.of_N w).
  { split; [lia|]. change 256 with (Z.of_N 256). rewrite <- N2Z.inj_pow. lia. }
  clear Hb. unfold decode_sample.
  set (u := Z.of_N (le_value bs)) in *. clearbody u.
  destruct (width_cases w Hw) as [-> | [-> | [-> | ->]]];
    cbn [N.ltb N.eqb N.compare Pos.compare Pos.compare_cont Pos.eqb];
    f_equal; solve_wrap.
Qed.




(** ** The counted loop *)

Lemma for_from_S {S : Type} (start n : nat) (body : nat -> S -> result S) (s : S) :
  for_from start (Datatypes.S n) body s = (s' ← body start s; for_from (Datatypes.S start) n body s').
Proof. reflexivity. Qed.

Lemma new_quantized_input_small (input_size sampwidth : N) :
  (sampwidth < 8)%N ->
  new_quantized_input input_size sampwidth = Ok ((input_size * sampwidth) mod 2 ^ 64)%N.
Proof.
  intros Hw. unfold new_quantized_input.
  destruct (N.leb_spec 8 sampwidth); [lia | reflexivity].
Qed.

Lemma bind_Ok_inv {A B : Type} (r : result A) (k : A -> result B) (b : B) :
  r ≫= k = Ok b -> exists a, r = Ok a /\ k a = Ok b.
Proof. destruct r as [a| |]; simpl; intros H; try discriminate. eauto. Qed.

(** ** The setters of the writer (C8) *)

(** C8: each of [setnchannels], [setsampwidth] and [setframerate] throws the
    state error once the header is written and leaves the format fields as
    they were; before that it throws the validation error exactly when its
    argument is outside its domain (channels at least 1, sample width from 1
    to 4, frame rate above 0), and otherwise stores the argument in its
    field and leaves the other two alone. *)
Theorem C8_setters_state_and_validation (self : Wave_write.t) (n : N) :
  (Wave_write.headerwritten self = true ->
     Wave_write.call (Wave_write.setnchannels n) self = (self, Throw StateError) /\
     Wave_write.call (Wave_write.setsampwidth n) self = (self, Throw StateError) /\
     Wave_write.call (Wave_write.setframerate n) self = (self, Throw StateError)) /\
  (Wave_write.headerwritten self = false ->
     (Wave_write.setnchannels n self = Throw ValidationError <-> ~ (1 <= n)%N) /\
     (Wave_write.setsampwidth n self = Throw ValidationError <-> ~ (1 <= n <= 4)%N) /\
     (Wave_write.setframerate n self = Throw ValidationError <-> ~ (0 < n)%N) /\
     ((1 <= n)%N ->
        exists self', Wave_write.call (Wave_write.setnchannels n) self = (self', Ok ()) /\
          format_fields self' = (n, Wave_write.sampwidth self, Wave_write.framerate self)) /\
     ((1 <= n <= 4)%N ->
        exists self', Wave_write.call (Wave_write.setsampwidth n) self = (self', Ok ()) /\
          format_fields self' = (Wave_write.nchannels self, n, Wave_write.framerate self)) /\
     ((0 < n)%N ->
        exists self', Wave_write.call (Wave_write.setframerate n) self = (self', Ok ()) /\
          format_fields self' = (Wave_write.nchannels self, Wave_write.sampwidth self, n))).
Proof.
  unfold Wave_write.call, Wave_write.setnchannels, Wave_write.setsampwidth,
    Wave_write.setframerate, format_fields.
  split; intros Hh; rewrite Hh.
  - auto.
  - repeat split.
    all: try (destruct (N.ltb_spec n 1); intros; try discriminate; try lia; eauto; fail).
    all: try (destruct (N.ltb_spec n 1), (N.ltb_spec 4 n); simpl; intros;
              try discriminate; try lia; eauto; fail).
    all: try (destruct (N.leb_spec n 0); intros; try discriminate; try lia; eauto; fail).
Qed.

Lemma C8_setters_witness :
  let written := Wave_write.mk true (new_chunk "RIFF") None 0 1 8000 2 "NONE" "not compressed" in
  Wave_write.call (Wave_write.setnchannels 2) written = (written, Throw StateError) /\
  (Wave_write.setsampwidth 5 Wave_write.construct = Throw ValidationError <-> ~ (1 <= 5 <= 4)%N).
Proof.
  split.
  - apply (C8_setters_state_and_validation
             (Wave_write.mk true (new_chunk "RIFF") None 0 1 8000 2 "NONE" "not compressed") 2).
    reflexivity.
  - apply (C8_setters_state_and_validation Wave_write.construct 5). reflexivity.
Defined.

Lemma ensure_header_written_flag (self self' : Wave_write.t) :
  Wave_write._ensure_header_written self = Ok self' ->
  Wave_write.headerwritten self' = true /\ format_fields self' = format_fields self.
Proof.
  unfold Wave_write._ensure_header_written, format_fields.
  destruct (Wave_write.headerwritten self) eqn:Hh; simpl.
  - intros [= <-]. auto.
  - destruct (Wave_write.nchannels self =? 0)%N; [discriminate|].
    destruct (Wave_write.sampwidth self =? 0)%N; [discriminate|].
    destruct (Wave_write.framerate self =? 0)%N; [discriminate|].
    intros [= <-]. auto.
Qed.

(** ** Files that cannot be opened (C9) *)

(** C9: when the file cannot be opened, [readwave] returns [false] with the
    output vector empty and the frame rate 0, and [writewave] returns [false]
    and leaves the file system as it was; neither throws. *)
Theorem C9_open_failure_returns_false (fs : filesystem) (filename : string)
    (output : list float) (Fs : float) (input : list float) (rate sampwidth nchannels : N) :
  (ifstream_open fs filename = None ->
     readwave fs filename output Fs = Returned false [] F32.zero) /\
  (ofstream_is_open fs filename = false ->
     writewave fs filename input rate sampwidth nchannels = Ok (false, fs)).
Proof.
  split; intros H.
  - unfold readwave. now rewrite H.
  - unfold writewave. now rewrite H.
Qed.

Lemma C9_open_failure_witness :
  readwave fs_locked "in.wav" [F32.one] F32.one = Returned false [] F32.zero /\
  writewave fs_locked "out.wav" [F32.one] 8000 2 1 = Ok (false, fs_locked).
Proof.
  split.
  - apply (C9_open_failure_returns_false fs_locked "in.wav" [F32.one] F32.one [] 0 0 0).
    reflexivity.
  - apply (C9_open_failure_returns_false fs_locked "out.wav" [] F32.one [F32.one] 8000 2 1).
    reflexivity.
Defined.

(** ** A channel count of zero (C10) *)

(** C10: with a channel count of 0 and a file that opens, [writewave] divides
    [input.size()] by zero before [setnchannels] is reached, so the call stops
    there; whatever the file, it never ends with the validation error that
    [setnchannels] has for this argument.  With a channel count of at least 1
    the division is defined. *)
Theorem C10_zero_channels_division_first (fs : filesystem) (filename : string)
    (input : list float) (Fs sampwidth : N) :
  (ofstream_is_open fs filename = true ->
     writewave fs filename input Fs sampwidth 0 = Fault DivisionByZero) /\
  writewave fs filename input Fs sampwidth 0 <> Throw ValidationError /\
  Wave_write.setnchannels 0 Wave_write.construct = Throw ValidationError /\
  (forall nchannels : N, (1 <= nchannels)%N ->
     udiv (N.of_nat (length input)) nchannels = Ok (N.of_nat (length input) / nchannels)%N).
Proof.
  unfold writewave. repeat split.
  - intros ->. reflexivity.
  - destruct (ofstream_is_open fs filename); simpl; discriminate.
  - intros c Hc. unfold udiv. destruct (N.eqb_spec c 0); [lia | reflexivity].
Qed.

Lemma C10_zero_channels_witness :
  writewave fs0 "a.wav" [F32.one] 8000 2 0 = Fault DivisionByZero /\
  udiv (N.of_nat (length [F32.one])) 1 = Ok (N.of_nat (length [F32.one]) / 1)%N.
Proof.
  split.
  - apply (C10_zero_channels_division_first fs0 "a.wav" [F32.one] 8000 2). reflexivity.
  - apply (C10_zero_channels_division_first fs0 "a.wav" [F32.one] 8000 2). lia.
Defined.

(** ** The constructor of the reader (C6, C7) *)

Lemma chunk_read_ok (c : Chunk) (n : N) :
  (N.to_nat n <= length (chunk_payload c))%nat ->
  chunk_read c n = Ok (take (N.to_nat n) (chunk_payload c), after_read (N.to_nat n) c).
Proof.
  intros H. unfold chunk_read.
  destruct (N.leb_spec n (N.of_nat (length (chunk_payload c)))); [reflexivity | lia].
Qed.

Lemma chunk_read_Ok_inv (c c' : Chunk) (n : N) (bs : list byte) :
  chunk_read c n = Ok (bs, c') ->
  (N.to_nat n <= length (chunk_payload c))%nat /\
  bs = take (N.to_nat n) (chunk_payload c) /\ c' = after_read (N.to_nat n) c.
Proof.
  unfold chunk_read.
  destruct (N.leb_spec n (N.of_nat (length (chunk_payload c)))); [|discriminate].
  intros [= <- <-]. split; [lia | split; reflexivity].
Qed.

Lemma read_fmt_chunk_unsupported (chunk : Chunk) (self : Wave_read.t) :
  (14 <= length (chunk_payload chunk))%nat ->
  fmt_tag chunk <> WAVE_FORMAT_PCM ->
  Wave_read.read_fmt_chunk chunk self = Throw UnsupportedFormatError.
Proof.
  intros Hlen Htag. unfold Wave_read.read_fmt_chunk.
  rewrite chunk_read_ok by (simpl; lia). cbn [mbind result_bind].
  change (N.to_nat 14) with 14%nat.
  rewrite take_take. change (2 `min` 14)%nat with 2%nat. fold (fmt_tag chunk).
  destruct (N.eqb_spec (fmt_tag chunk) WAVE_FORMAT_PCM); [contradiction | reflexivity].
Qed.

Lemma read_fmt_chunk_pcm (chunk : Chunk) (self : Wave_read.t) :
  pcm_fmt chunk ->
  exists self',
    Wave_read.read_fmt_chunk chunk self = Ok (after_read 16 chunk, self') /\
    Wave_read.sampwidth self' = ((fmt_bits chunk + 7) / 8)%N /\
    Wave_read.nchannels self' = le_value (take 2 (drop 2 (chunk_payload chunk))) /\
    Wave_read.framerate self' = le_value (take 4 (drop 4 (chunk_payload chunk))) /\
    Wave_read.framesize self' = (Wave_read.nchannels self' * Wave_read.sampwidth self')%N /\
    Wave_read.file_chunk self' = Wave_read.file_chunk self /\
    Wave_read.data_chunk self' = Wave_read.data_chunk self.
Proof.
  intros [Hlen Htag]. unfold Wave_read.read_fmt_chunk.
  rewrite chunk_read_ok by (simpl; lia). cbn [mbind result_bind].
  change (N.to_nat 14) with 14%nat.
  rewrite take_take. change (2 `min` 14)%nat with 2%nat. fold (fmt_tag chunk).
  rewrite Htag, N.eqb_refl.
  rewrite chunk_read_ok by (simpl; rewrite length_drop; lia).
  cbn [mbind result_bind]. change (N.to_nat 2) with 2%nat.
  assert (Hc : after_read 2 (after_read 14 chunk) = after_read 16 chunk).
  { unfold after_read. cbn [chunk_payload chunk_id chunk_size chunk_subchunks].
    now rewrite drop_drop. }
  rewrite Hc. eexists. split; [reflexivity|].
  cbn [Wave_read.sampwidth Wave_read.nchannels Wave_read.framerate Wave_read.framesize
       Wave_read.file_chunk Wave_read.data_chunk after_read chunk_payload].
  unfold fmt_bits.
  rewrite !take_drop_commute, !take_take. simpl Nat.min.
  repeat split; reflexivity.
Qed.

Lemma construct_riff_wave (file : Chunk) :
  is_riff_wave file ->
  Wave_read.construct file =
    ('(fmt_chunk_read, data_chunk_read, self) ←
       Wave_read.scan (chunk_subchunks file) 0 false (Wave_read.init (after_read 4 file));
     if negb fmt_chunk_read || negb data_chunk_read then Throw MissingChunkError
     else Ok self).
Proof.
  intros [Hid Hwave]. unfold Wave_read.construct.
  rewrite Hid. cbn [String.eqb Ascii.eqb Bool.eqb negb].
  assert (Hlen : (4 <= length (chunk_payload file))%nat).
  { apply (f_equal length) in Hwave. rewrite length_take in Hwave.
    change (length (bytes_of_string "WAVE")) with 4%nat in Hwave. lia. }
  rewrite chunk_read_ok by (simpl; lia). cbn [mbind result_bind].
  change (N.to_nat 4) with 4%nat. rewrite Hwave.
  rewrite bool_decide_eq_true_2 by reflexivity. reflexivity.
Qed.

Lemma scan_data_before_fmt (pre post : list Chunk) (d : Chunk) (i : nat) (self : Wave_read.t) :
  Forall (fun c => chunk_id c <> "fmt "%string) pre ->
  chunk_id d = "data"%string ->
  Wave_read.scan (pre ++ d :: post) i false self = Throw OrderError.
Proof.
  intros Hpre Hd. revert i self.
  induction Hpre as [|c pre Hc Hpre IH]; intros i self; cbn [app Wave_read.scan].
  - rewrite Hd. reflexivity.
  - destruct (String.eqb_spec (chunk_id c) "fmt "); [contradiction|].
    destruct (String.eqb_spec (chunk_id c) "data"); [reflexivity|].
    apply IH.
Qed.

(** C6: in a RIFF/WAVE container whose sub-chunks have a [data] chunk with no
    [fmt ] chunk before it, the constructor of the reader throws the order
    error, and so does [readwave], which leaves its output parameters as
    they were. *)
Theorem C6_data_before_fmt_is_order_error (file : Chunk) (pre post : list Chunk) (d : Chunk)
    (fs : filesystem) (filename : string) (output : list float) (Fs : float) :
  is_riff_wave file ->
  chunk_subchunks file = pre ++ d :: post ->
  chunk_id d = "data"%string ->
  Forall (fun c => chunk_id c <> "fmt "%string) pre ->
  Wave_read.construct file = Throw OrderError /\
  (ifstream_open fs filename = Some file ->
   readwave fs filename output Fs = Thrown OrderError output Fs).
Proof.
  intros Hrw Hsub Hd Hpre.
  assert (Hc : Wave_read.construct file = Throw OrderError).
  { rewrite construct_riff_wave by assumption.
    rewrite Hsub, scan_data_before_fmt by assumption. reflexivity. }
  split; [exact Hc|].
  intros Hopen. unfold readwave. now rewrite Hopen, Hc.
Qed.

Lemma C6_data_before_fmt_witness :
  Wave_read.construct file_data_first = Throw OrderError /\
  (ifstream_open (mkFs {["a.wav"%string := file_data_first]} ∅) "a.wav" = Some file_data_first ->
   readwave (mkFs {["a.wav"%string := file_data_first]} ∅) "a.wav" [F32.one] F32.one
   = Thrown OrderError [F32.one] F32.one).
Proof.
  apply (C6_data_before_fmt_is_order_error file_data_first
           [mkChunk "LIST" 0 [] []] [mkChunk "fmt " 16 pcm_header_mono16 []]
           (mkChunk "data" 2 [x00; x80] [])).
  - split; reflexivity.
  - reflexivity.
  - reflexivity.
  - repeat constructor. discriminate.
Defined.

Lemma scan_unsupported (pre post : list Chunk) (c : Chunk) (i : nat) (flag : bool)
    (self : Wave_read.t) :
  Forall (fun x => chunk_id x <> "data"%string /\ (chunk_id x = "fmt "%string -> pcm_fmt x)) pre ->
  chunk_id c = "fmt "%string ->
  (14 <= length (chunk_payload c))%nat ->
  fmt_tag c <> WAVE_FORMAT_PCM ->
  Wave_read.scan (pre ++ c :: post) i flag self = Throw UnsupportedFormatError.
Proof.
  intros Hpre Hc Hlen Htag. revert i flag self.
  induction Hpre as [|x pre [Hx1 Hx2] Hpre IH]; intros i flag self; cbn [app Wave_read.scan].
  - rewrite Hc. cbn [String.eqb Ascii.eqb Bool.eqb].
    now rewrite read_fmt_chunk_unsupported.
  - destruct (String.eqb_spec (chunk_id x) "fmt ") as [Hfmt|Hfmt].
    + destruct (read_fmt_chunk_pcm x self (Hx2 Hfmt)) as (self' & -> & _).
      cbn [mbind result_bind]. apply IH.
    + destruct (String.eqb_spec (chunk_id x) "data"); [contradiction|]. apply IH.
Qed.

(** C7, the claim as it is worded fails: a [fmt ] chunk whose format tag is
    2 does not make the constructor fail when it comes after the [data] chunk,
    where the scan has stopped: the file is read as the PCM file that its
    first [fmt ] chunk describes.  With the [data] chunk before every [fmt ]
    chunk the error is the one about the order. *)
Lemma C7_unsupported_format_counterexample :
  let chunk := mkChunk "fmt " 16 adpcm_header [] in
  (14 <= length (chunk_payload chunk))%nat /\ fmt_tag chunk = 2%N /\
  fmt_tag chunk <> WAVE_FORMAT_PCM /\
  In chunk (chunk_subchunks file_with_extras) /\
  (exists f, Wave_read.construct file_with_extras = Ok f) /\
  readwave (mkFs {["a.wav"%string := file_with_extras]} ∅) "a.wav" [] F32.zero
  = Returned true [F32.of_Z 16384; F32.of_Z (-16384)] (F32.of_Z 8000) /\
  Wave_read.construct (riff [mkChunk "data" 2 [x00; x80] []; chunk]) = Throw OrderError /\
  Wave_read.construct (riff [mkChunk "data" 2 [x00; x80] []; chunk])
  <> Throw UnsupportedFormatError.
Proof.
  cbv zeta. split; [simpl; lia|]. split; [reflexivity|]. split; [discriminate|].
  split; [simpl; tauto|]. split; [eexists; vm_compute; reflexivity|].
  split; [vm_compute; reflexivity|]. split; [reflexivity | discriminate].
Qed.

(** C7 (amended): [read_fmt_chunk] on a [fmt ] chunk whose format tag is not 1 throws
    the unsupported-format error; so does the constructor of the reader on a
    RIFF/WAVE container that reaches such a chunk (no [data] chunk and only
    PCM [fmt ] chunks before it), and [readwave] then leaves its output
    parameters as they were.  For the format tag 1 the sample width is the
    number of bits per sample divided by 8 and rounded up. *)
Theorem C7_unsupported_format_rejected (chunk : Chunk) (self : Wave_read.t)
    (file : Chunk) (pre post : list Chunk)
    (fs : filesystem) (filename : string) (output : list float) (Fs : float) :
  ((14 <= length (chunk_payload chunk))%nat -> fmt_tag chunk <> WAVE_FORMAT_PCM ->
     Wave_read.read_fmt_chunk chunk self = Throw UnsupportedFormatError /\
     (is_riff_wave file -> chunk_subchunks file = pre ++ chunk :: post ->
      chunk_id chunk = "fmt "%string ->
      Forall (fun x => chunk_id x <> "data"%string /\
                       (chunk_id x = "fmt "%string -> pcm_fmt x)) pre ->
      Wave_read.construct file = Throw UnsupportedFormatError /\
      (ifstream_open fs filename = Some file ->
       readwave fs filename output Fs = Thrown UnsupportedFormatError output Fs))) /\
  (pcm_fmt chunk ->
     exists chunk' self',
       Wave_read.read_fmt_chunk chunk self = Ok (chunk', self') /\
       Wave_read.sampwidth self' = ((fmt_bits chunk + 7) / 8)%N /\
       8 * (Z.of_N (Wave_read.sampwidth self') - 1) < Z.of_N (fmt_bits chunk)
         <= 8 * Z.of_N (Wave_read.sampwidth self')).
Proof.
  split.
  - intros Hlen Htag. split; [now apply read_fmt_chunk_unsupported|].
    intros Hrw Hsub Hid Hpre.
    assert (Hc : Wave_read.construct file = Throw UnsupportedFormatError).
    { rewrite construct_riff_wave by assumption.
      rewrite Hsub, scan_unsupported by assumption. reflexivity. }
    split; [exact Hc|]. intros Hopen. unfold readwave. now rewrite Hopen, Hc.
  - intros Hpcm.
    destruct (read_fmt_chunk_pcm chunk self Hpcm) as (self' & Hr & Hsw & _).
    exists (after_read 16 chunk), self'. split; [exact Hr|]. split; [exact Hsw|].
    rewrite Hsw. rewrite N2Z.inj_div, N2Z.inj_add. cbn [Z.of_N].
    Z.to_euclidean_division_equations. lia.
Qed.

Lemma C7_unsupported_format_witness :
  (Wave_read.read_fmt_chunk (mkChunk "fmt " 16 adpcm_header []) (Wave_read.init file_adpcm)
   = Throw UnsupportedFormatError /\
   Wave_read.construct file_adpcm = Throw UnsupportedFormatError) /\
  exists chunk' self',
    Wave_read.read_fmt_chunk (mkChunk "fmt " 16 pcm_header_mono16 []) (Wave_read.init file_adpcm)
    = Ok (chunk', self') /\
    Wave_read.sampwidth self' = 2%N.
Proof.
  split.
  - destruct (C7_unsupported_format_rejected (mkChunk "fmt " 16 adpcm_header [])
             (Wave_read.init file_adpcm) file_adpcm []
             [mkChunk "data" 2 [x00; x80] []] fs0 "a.wav" [] F32.zero) as [H _].
    destruct H as [H1 H2]; [simpl; lia | discriminate |].
    split; [exact H1|].
    apply H2; [split; reflexivity | reflexivity | reflexivity | constructor].
  - destruct (C7_unsupported_format_rejected (mkChunk "fmt " 16 pcm_header_mono16 [])
             (Wave_read.init file_adpcm) file_adpcm [] [] fs0 "a.wav" [] F32.zero) as [_ H].
    destruct H as (chunk' & self' & Hr & Hsw & _); [split; [simpl; lia | reflexivity]|].
    exists chunk', self'. split; [exact Hr | exact Hsw].
Defined.

(** ** The frame loop of [readwave] (C5) *)





Section FrameLoop.
Variables (sampwidth nchannels : N) (scale : float).

Let body := decode_frames_body sampwidth nchannels scale.





End FrameLoop.

Lemma read_fmt_chunk_Ok_inv (chunk chunk' : Chunk) (self self' : Wave_read.t) :
  Wave_read.read_fmt_chunk chunk self = Ok (chunk', self') ->
  Wave_read.file_chunk self' = Wave_read.file_chunk self /\
  Wave_read.framesize self' = (Wave_read.nchannels self' * Wave_read.sampwidth self')%N.
Proof.
  unfold Wave_read.read_fmt_chunk. intros H.
  apply bind_Ok_inv in H as ([fmt c1] & _ & H).
  destruct (le_value (take 2 fmt) =? WAVE_FORMAT_PCM)%N; [|discriminate].
  apply bind_Ok_inv in H as ([bits c2] & _ & [= _ <-]). split; reflexivity.
Qed.

Lemma drop_cons_inv {A : Type} (l : list A) (i : nat) (x : A) (l' : list A) :
  drop i l = x :: l' -> l !! i = Some x /\ drop (S i) l = l'.
Proof.
  intros H. assert (Hx : l !! i = Some x).
  { rewrite <- (Nat.add_0_r i), <- lookup_drop, H. reflexivity. }
  split; [exact Hx|]. rewrite (drop_S _ _ _ Hx) in H. now injection H.
Qed.

Lemma scan_Ok_inv (cs : list Chunk) (i : nat) (flag flag' : bool) (self self' : Wave_read.t) :
  drop i (chunk_subchunks (Wave_read.file_chunk self)) = cs ->
  Wave_read.framesize self = (Wave_read.nchannels self * Wave_read.sampwidth self)%N ->
  Wave_read.scan cs i flag self = Ok (flag', true, self') ->
  exists c, reader_data self' = Some c /\ chunk_id c = "data"%string /\
    Wave_read.framesize self' <> 0%N /\
    Wave_read.nframes self' = (chunk_size c / Wave_read.framesize self')%N /\
    Wave_read.framesize self' = (Wave_read.nchannels self' * Wave_read.sampwidth self')%N.
Proof.
  revert i flag self. induction cs as [|chunk cs IH]; intros i flag self Hdrop Hfs Hscan.
  - discriminate.
  - apply drop_cons_inv in Hdrop as [Hi Hdrop].
    cbn [Wave_read.scan] in Hscan.
    destruct (String.eqb_spec (chunk_id chunk) "fmt ") as [Hfmt|Hfmt].
    + apply bind_Ok_inv in Hscan as ([chunk' self1] & Hread & Hscan).
      apply read_fmt_chunk_Ok_inv in Hread as [Hfc Hfs1].
      apply IH in Hscan; [exact Hscan | | exact Hfs1].
      cbn. rewrite Hfc. rewrite drop_insert_lt by lia. exact Hdrop.
    + destruct (String.eqb_spec (chunk_id chunk) "data") as [Hdata|Hdata].
      * destruct flag; [|discriminate]. cbn [negb] in Hscan.
        unfold udiv in Hscan.
        destruct (N.eqb_spec (Wave_read.framesize self) 0) as [|Hnz]; [discriminate|].
        injection Hscan as _ <-. exists chunk. unfold reader_data. cbn.
        repeat split; assumption.
      * apply IH in Hscan; assumption.
Qed.

Lemma construct_Ok_inv (file : Chunk) (f : Wave_read.t) :
  Wave_read.construct file = Ok f ->
  exists c, reader_data f = Some c /\ chunk_id c = "data"%string /\
    Wave_read.framesize f <> 0%N /\
    Wave_read.nframes f = (chunk_size c / Wave_read.framesize f)%N /\
    Wave_read.framesize f = (Wave_read.nchannels f * Wave_read.sampwidth f)%N.
Proof.
  unfold Wave_read.construct.
  destruct (negb (chunk_id file =? "RIFF")%string); [discriminate|].
  intros H. apply bind_Ok_inv in H as ([format file'] & Hread & H).
  destruct (negb (bool_decide (format = bytes_of_string "WAVE"))); [discriminate|].
  apply bind_Ok_inv in H as ([[fmt_read data_read] self] & Hscan & H).
  destruct fmt_read, data_read; try discriminate. injection H as <-.
  apply chunk_read_Ok_inv in Hread as (_ & _ & ->).
  apply scan_Ok_inv in Hscan; [exact Hscan | reflexivity | reflexivity].
Qed.





(** ** The writer (C3) *)

Lemma quantize_length (scale : float) (w : N) (x : float) (bs : list byte) :
  quantize scale w x = Ok bs -> length bs = N.to_nat w.
Proof.
  unfold quantize. intros H. apply bind_Ok_inv in H as (t & _ & H).
  destruct (4 <? w)%N; [discriminate|]. injection H as <-. apply length_le_bytes.
Qed.

Lemma quantize_input_length (scale : float) (w : N) (input : list float) (q : list byte) :
  quantize_input scale w input = Ok q -> length q = (length input * N.to_nat w)%nat.
Proof.
  revert q. induction input as [|x input IH]; intros q H.
  - injection H as <-. reflexivity.
  - cbn [quantize_input] in H.
    apply bind_Ok_inv in H as (bs & Hbs & H). apply bind_Ok_inv in H as (rest & Hrest & [= <-]).
    rewrite length_app, (quantize_length _ _ _ _ Hbs), (IH _ Hrest).
    cbn [length]. rewrite Nat.mul_succ_l. apply Nat.add_comm.
Qed.

Lemma quantize_input_take (scale : float) (w : N) (input : list float) (q : list byte)
    (k : nat) :
  quantize_input scale w input = Ok q ->
  quantize_input scale w (take k input) = Ok (take (k * N.to_nat w) q).
Proof.
  revert q k. induction input as [|x input IH]; intros q k H.
  - injection H as <-. now rewrite !take_nil.
  - cbn [quantize_input] in H.
    apply bind_Ok_inv in H as (bs & Hbs & H). apply bind_Ok_inv in H as (rest & Hrest & [= <-]).
    destruct k as [|k]; [reflexivity|].
    cbn [take quantize_input]. rewrite Hbs. cbn [mbind result_bind].
    rewrite (IH _ k Hrest). cbn [mbind result_bind].
    pose proof (quantize_length _ _ _ _ Hbs) as Hlen.
    set (m := N.to_nat w) in *. clearbody m.
    rewrite Nat.mul_succ_l, Nat.add_comm.
    rewrite take_app_ge by lia. do 3 f_equal. lia.
Qed.

Lemma writewave_Ok (fs : filesystem) (filename : string) (input : list float)
    (Fs w c : N) (scale : float) (q : list byte) :
  ofstream_is_open fs filename = true ->
  (1 <= c)%N -> (1 <= w <= 4)%N -> (0 < Fs)%N ->
  quantization_scale w = Ok scale ->
  quantize_input scale w input = Ok q ->
  writewave fs filename input Fs w c =
    Ok (true, store_file fs filename
                (written_file c Fs w
                   (take (N.to_nat (N.of_nat (length input) / c * w * c)) q))).
Proof.
  intros Hopen Hc Hw HFs Hscale Hq.
  unfold writewave. rewrite Hopen. cbn [negb].
  unfold udiv. destruct (N.eqb_spec c 0); [lia|]. cbn [mbind result_bind].
  rewrite Hscale. cbn [mbind result_bind].
  rewrite new_quantized_input_small by lia. cbn [mbind result_bind].
  rewrite Hq. cbn [mbind result_bind].
  unfold Wave_write.on_object at 1. unfold Wave_write.setnchannels.
  cbn [Wave_write.construct Wave_write.headerwritten].
  destruct (N.ltb_spec c 1); [lia|].
  unfold Wave_write.on_object at 1. unfold Wave_write.setsampwidth.
  cbn [Wave_write.headerwritten].
  destruct (N.ltb_spec w 1); [lia|]. destruct (N.ltb_spec 4 w); [lia|]. cbn [orb].
  unfold Wave_write.on_object at 1. unfold Wave_write.setframerate.
  cbn [Wave_write.headerwritten].
  destruct (N.leb_spec Fs 0); [lia|].
  unfold Wave_write.on_object at 1. unfold Wave_write.writeframes.
  unfold Wave_write._ensure_header_written at 1.
  cbn [Wave_write.headerwritten Wave_write.nchannels Wave_write.sampwidth
       Wave_write.framerate negb].
  destruct (N.eqb_spec c 0); [lia|]. destruct (N.eqb_spec w 0); [lia|].
  destruct (N.eqb_spec Fs 0); [lia|].
  cbn [addSubchunk Wave_write.file_chunk chunk_write new_chunk chunk_subchunks chunk_id
       chunk_size chunk_payload set_subchunk app length fst snd mbind result_bind
       Wave_write.data_chunk Wave_write.nchannels Wave_write.sampwidth].
  cbn [insert list_insert lookup list_lookup app length].
  pose proof (quantize_input_length _ _ _ _ Hq) as Hlen.
  assert (Hbytes : (N.of_nat (length input) / c * w * c <= N.of_nat (length q))%N).
  { rewrite Hlen. pose proof (N.Div0.mul_div_le (N.of_nat (length input)) c). nia. }
  destruct (N.leb_spec (N.of_nat (length input) / c * w * c) (N.of_nat (length q))); [|lia].
  unfold Wave_write.on_object, Wave_write.close, Wave_write._ensure_header_written.
  cbn [Wave_write.headerwritten negb Wave_write.file_chunk].
  reflexivity.
Qed.

Lemma quantize_input_lookup (scale : float) (w : N) (input : list float) (q : list byte)
    (i : nat) (x : float) :
  quantize_input scale w input = Ok q ->
  input !! i = Some x ->
  quantize scale w x = Ok (take (N.to_nat w) (drop (i * N.to_nat w) q)).
Proof.
  revert q i. induction input as [|y input IH]; intros q i H Hx; [discriminate|].
  cbn [quantize_input] in H.
  apply bind_Ok_inv in H as (bs & Hbs & H). apply bind_Ok_inv in H as (rest & Hrest & [= <-]).
  pose proof (quantize_length _ _ _ _ Hbs) as Hlen.
  destruct i as [|i].
  - injection Hx as ->. rewrite Hbs. change (0 * N.to_nat w)%nat with 0%nat.
    rewrite drop_0, take_app_length' by (symmetry; exact Hlen). reflexivity.
  - rewrite (IH _ _ Hrest Hx). rewrite Nat.mul_succ_l, Nat.add_comm.
    rewrite <- drop_drop, <- Hlen, drop_app_length. reflexivity.
Qed.

Lemma written_data_store (fs : filesystem) (filename : string) (c Fs w : N)
    (data : list byte) :
  written_data (store_file fs filename (written_file c Fs w data)) filename = Some data.
Proof. unfold written_data, store_file. cbn [files]. now rewrite lookup_insert_eq. Qed.

(** C3, counterexample: two values written as one stereo frame of width 1
    give the two bytes of the two values, not each byte twice. *)
Lemma C3_replication_counterexample : ~ writes_replicated [half; F32.zero] 8000 1 2.
Proof.
  intros H.
  destruct (H (S754_finite false 8388608 (-15))
              (store_file fs0 "a.wav" (written_file 2 8000 1 [xc0; x80])) eq_refl eq_refl)
    as (data & Hd & Hr).
  rewrite written_data_store in Hd. injection Hd as <-. vm_compute in Hr. discriminate.
Qed.

(** C3, amended: [writewave] writes no value more than once.  With [c]
    channels the input is taken as interleaved: the data payload is the
    quantized bytes of the first [floor(L/c) * c] of the [L] input values, in
    input order, so that channel [j] of frame [k] holds the bytes of the input
    value at position [k*c + j]. *)
Theorem C3_input_is_interleaved (fs : filesystem) (filename : string) (input : list float)
    (Fs w c : N) (scale : float) (q : list byte) :
  ofstream_is_open fs filename = true ->
  (1 <= c)%N -> (1 <= w <= 4)%N -> (0 < Fs)%N ->
  quantization_scale w = Ok scale ->
  quantize_input scale w input = Ok q ->
  let nframes := (length input / N.to_nat c)%nat in
  exists fs' data,
    writewave fs filename input Fs w c = Ok (true, fs') /\
    written_data fs' filename = Some data /\
    quantize_input scale w (take (nframes * N.to_nat c) input) = Ok data /\
    length data = (nframes * (N.to_nat c * N.to_nat w))%nat /\
    forall k j x, (k < nframes)%nat -> (j < N.to_nat c)%nat ->
      input !! (k * N.to_nat c + j)%nat = Some x ->
      quantize scale w x
      = Ok (take (N.to_nat w) (drop ((k * N.to_nat c + j) * N.to_nat w) data)).
Proof.
  intros Hopen Hc Hw HFs Hscale Hq nframes.
  eexists _, _. split; [apply (writewave_Ok _ _ _ _ _ _ _ _ Hopen Hc Hw HFs Hscale Hq)|].
  split; [apply written_data_store|].
  assert (Hn : N.to_nat (N.of_nat (length input) / c * w * c)
               = (nframes * N.to_nat c * N.to_nat w)%nat).
  { unfold nframes. rewrite !N2Nat.inj_mul, N2Nat.inj_div, Nat2N.id. lia. }
  rewrite Hn.
  pose proof (quantize_input_take _ _ _ _ (nframes * N.to_nat c) Hq) as Htake.
  split; [exact Htake|].
  split.
  { rewrite (quantize_input_length _ _ _ _ Htake), length_take.
    pose proof (Nat.Div0.mul_div_le (length input) (N.to_nat c)). fold nframes in H.
    rewrite Nat.min_l by lia. lia. }
  intros k j x Hk Hj Hx.
  apply (quantize_input_lookup _ _ _ _ _ _ Htake).
  rewrite lookup_take_lt; [exact Hx|]. nia.
Qed.

Lemma C3_input_is_interleaved_witness :
  exists fs' data,
    writewave fs0 "a.wav" [half; F32.zero; F32.one] 8000 1 2 = Ok (true, fs') /\
    written_data fs' "a.wav" = Some data /\
    quantize_input (S754_finite false 8388608 (-15)) 1 [half; F32.zero] = Ok data.
Proof.
  destruct (C3_input_is_interleaved fs0 "a.wav" [half; F32.zero; F32.one] 8000 1 2
              (S754_finite false 8388608 (-15)) [xc0; x80; x00])
    as (fs' & data & Hw & Hd & Hq & _).
  - reflexivity.
  - lia.
  - lia.
  - lia.
  - reflexivity.
  - reflexivity.
  - exists fs', data. repeat split; assumption.
Defined.

(** ** Rounding in binary32 *)

Lemma fexp32_eq (e : Z) : fexp32 e = Z.max (e - 24) (-149).
Proof. reflexivity. Qed.

Lemma digits2_pos_log2 (m : positive) : Zpos (digits2_pos m) = Z.log2 (Zpos m) + 1.
Proof.
  assert (H : forall p, digits2_pos p = Pos.size p).
  { induction p as [p IH|p IH|]; simpl; congruence. }
  destruct m as [p|p|]; cbn [digits2_pos Z.log2]; rewrite ?Pos2Z.inj_succ, ?H; lia.
Qed.

Lemma digits2_pos_bounds (m : positive) :
  2 ^ (Zpos (digits2_pos m) - 1) <= Zpos m < 2 ^ Zpos (digits2_pos m).
Proof.
  rewrite digits2_pos_log2. pose proof (Z.log2_spec (Zpos m) eq_refl) as H.
  replace (Z.log2 (Zpos m) + 1 - 1) with (Z.log2 (Zpos m)) by lia.
  exact H.
Qed.

Lemma digits2_pos_unique (m : positive) (d : Z) :
  2 ^ (d - 1) <= Zpos m < 2 ^ d -> Zpos (digits2_pos m) = d.
Proof.
  intros H. rewrite digits2_pos_log2.
  assert (0 < d).
  { destruct (Z_lt_le_dec 0 d) as [|Hd]; [assumption|].
    destruct H as [_ H]. destruct (Z.eq_dec d 0) as [->|Hd0].
    - change (2 ^ 0) with 1 in H. lia.
    - rewrite (Z.pow_neg_r 2 d) in H by lia. lia. }
  rewrite (Z.log2_unique (Zpos m) (d - 1)); [lia | lia |].
  replace (Z.succ (d - 1)) with d by lia. exact H.
Qed.

Lemma digits2_pos_le (m : positive) (d : Z) :
  0 <= d -> Zpos m < 2 ^ d -> Zpos (digits2_pos m) <= d.
Proof.
  intros Hd H. rewrite digits2_pos_log2.
  apply Z.log2_lt_pow2 in H; lia.
Qed.

Lemma iter_pos_nat {A : Type} (f : A -> A) (p : positive) (x : A) :
  SpecFloat.iter_pos f p x = Nat.iter (Pos.to_nat p) f x.
Proof.
  revert x. induction p as [p IH|p IH|]; intros x; cbn [SpecFloat.iter_pos].
  - rewrite !IH, Pos2Nat.inj_xI.
    replace (S (2 * Pos.to_nat p)) with (Pos.to_nat p + (Pos.to_nat p + 1))%nat by lia.
    rewrite !Nat.iter_add. reflexivity.
  - rewrite !IH, Pos2Nat.inj_xO.
    replace (2 * Pos.to_nat p)%nat with (Pos.to_nat p + Pos.to_nat p)%nat by lia.
    rewrite Nat.iter_add. reflexivity.
  - reflexivity.
Qed.

Lemma shr_1_spec (mrs : shr_record) :
  0 <= shr_m mrs ->
  shr_m (shr_1 mrs) = shr_m mrs / 2 /\
  shr_r (shr_1 mrs) || shr_s (shr_1 mrs) = Z.odd (shr_m mrs) || (shr_r mrs || shr_s mrs).
Proof.
  destruct mrs as [m r s]. cbn [shr_m shr_r shr_s]. intros Hm.
  rewrite <- Z.div2_div.
  destruct m as [|p|p]; [| |lia]; [|destruct p]; cbn; destruct r, s; auto.
Qed.

Lemma shr_iter_spec (k : nat) (m : Z) :
  0 <= m ->
  let mrs := Nat.iter k shr_1 (Build_shr_record m false false) in
  shr_m mrs = m / 2 ^ Z.of_nat k /\
  shr_r mrs || shr_s mrs = negb (m mod 2 ^ Z.of_nat k =? 0).
Proof.
  intros Hm. induction k as [|k [IHm IHs]].
  - cbn. rewrite Z.div_1_r, Z.mod_1_r. auto.
  - cbn zeta in *. rewrite Nat.iter_succ.
    set (mrs := Nat.iter k shr_1 _) in *.
    assert (H0 : 0 <= shr_m mrs) by (rewrite IHm; apply Z.div_pos; lia).
    destruct (shr_1_spec mrs H0) as [H1 H2].
    rewrite Nat2Z.inj_succ, Z.pow_succ_r by lia.
    split.
    + rewrite H1, IHm, Z.div_div by lia. f_equal. lia.
    + rewrite H2, IHs, IHm.
      rewrite (Z.mul_comm 2), Z.rem_mul_r by lia.
      rewrite (Zmod_odd (m / 2 ^ Z.of_nat k)).
      assert (0 <= m mod 2 ^ Z.of_nat k < 2 ^ Z.of_nat k) by (apply Z.mod_pos_bound; lia).
      destruct (Z.odd (m / 2 ^ Z.of_nat k)); cbn [orb].
      * symmetry. apply negb_true_iff, Z.eqb_neq. lia.
      * f_equal. rewrite Z.mul_0_r, Z.add_0_r. reflexivity.
Qed.

Lemma round_nearest_even_spec (q : Z) (l : location) :
  q <= round_nearest_even q l <= q + 1 /\
  (l = loc_Exact -> round_nearest_even q l = q).
Proof.
  unfold round_nearest_even. destruct l as [|[| |]]; try destruct (Z.even q);
    (split; [lia | auto; discriminate]).
Qed.

Lemma loc_of_shr_record_exact (mrs : shr_record) :
  shr_r mrs || shr_s mrs = false -> loc_of_shr_record mrs = loc_Exact.
Proof. destruct mrs as [m [|] [|]]; cbn; congruence. Qed.

Lemma shr_spec (m e n : Z) :
  0 <= m -> 0 <= n ->
  exists mrs, shr (Build_shr_record m false false) e n = (mrs, e + n) /\
    shr_m mrs = m / 2 ^ n /\
    shr_r mrs || shr_s mrs = negb (m mod 2 ^ n =? 0).
Proof.
  intros Hm Hn. destruct n as [|p|p]; [| |lia]; cbn [shr].
  - eexists. split; [rewrite Z.add_0_r; reflexivity|]. cbn [shr_m shr_r shr_s].
    change (2 ^ 0) with 1. rewrite Z.div_1_r, Z.mod_1_r. auto.
  - eexists. split; [reflexivity|]. rewrite iter_pos_nat.
    pose proof (shr_iter_spec (Pos.to_nat p) m Hm) as H. cbn zeta in H.
    rewrite positive_nat_Z in H. exact H.
Qed.

Lemma round_finish (s : bool) (m1 E : Z) :
  -149 <= E <= 104 -> (m1 = 2 ^ 24 -> E <= 103) ->
  2 ^ 23 <= m1 <= 2 ^ 24 \/ (E = -149 /\ 0 <= m1 <= 2 ^ 23) ->
  exists mrs e2,
    shr_fexp 24 128 m1 E loc_Exact = (mrs, e2) /\
    let r := match shr_m mrs with
             | Z0 => S754_zero s
             | Zpos m => if e2 <=? 128 - 24 then S754_finite s m e2 else S754_infinity s
             | Zneg _ => S754_nan
             end in
    units r = cond_Zopp s (m1 * 2 ^ (E + 149)) /\
    F32.valid r = true /\
    (m1 = 0 -> r = S754_zero s) /\
    (0 < m1 -> exists m2 e2', r = S754_finite s m2 e2').
Proof.
  intros HE Hcarry Hm1. unfold shr_fexp.
  destruct (Z.eq_dec m1 0) as [->|Hnz].
  - (* the rounded mantissa is zero *)
    cbn [Zdigits2 shr_record_of_loc]. change (fexp 24 128) with fexp32.
    rewrite fexp32_eq.
    assert (Hn : Z.max (0 + E - 24) (-149) - E <= 0) by lia.
    destruct (Z.max (0 + E - 24) (-149) - E) as [|p|p] eqn:Hp; [| lia |];
      cbn [shr]; eexists _, _; (split; [reflexivity|]); cbn [shr_m];
      destruct s; cbn; repeat split; try reflexivity; intros; lia.
  - destruct (Z.eq_dec m1 (2 ^ 24)) as [->|Hne].
    + (* the rounding carried into a 25th bit: one more shift, which is exact *)
      specialize (Hcarry eq_refl).
      change (2 ^ 24) with 16777216. change (Zdigits2 16777216) with 25.
      cbn [shr_record_of_loc].
      change (fexp 24 128) with fexp32. rewrite fexp32_eq.
      replace (Z.max (25 + E - 24) (-149) - E) with 1 by lia.
      cbn [shr SpecFloat.iter_pos shr_1 shr_m]. eexists _, _. split; [reflexivity|].
      destruct (Z.leb_spec (E + 1) (128 - 24)); [|lia].
      cbn zeta. cbn [shr_m]. split; [|split; [|split]].
      * cbn [units]. f_equal. replace (E + 1 + 149) with (E + 149 + 1) by lia.
        rewrite (Z.pow_add_r 2 (E + 149) 1) by lia. lia.
      * cbn [F32.valid valid_binary]. unfold bounded, canonical_mantissa.
        change (Zpos (digits2_pos 8388608)) with 24.
        change (fexp F32.prec F32.emax) with fexp32.
        rewrite fexp32_eq. apply andb_true_iff. split; [apply Z.eqb_eq | apply Z.leb_le];
          unfold F32.emax, F32.prec; lia.
      * intros; lia.
      * intros _. eauto.
    + (* no carry: the mantissa has at most 24 bits and is in place *)
      destruct m1 as [|p|p]; [lia | | change (2 ^ 23) with 8388608 in Hm1; lia].
      cbn [Zdigits2 shr_record_of_loc].
      assert (Hd : Zpos (digits2_pos p) <= 24 /\ (Zpos (digits2_pos p) = 24 \/ E = -149)).
      { destruct Hm1 as [Hm1 | [-> Hm1]].
        - rewrite (digits2_pos_unique p 24); [lia|]. change (24 - 1) with 23. lia.
        - split; [|auto]. apply digits2_pos_le; [lia|].
          change (2 ^ 23) with 8388608 in Hm1. change (2 ^ 24) with 16777216. lia. }
      change (fexp 24 128) with fexp32. rewrite fexp32_eq.
      replace (Z.max (Zpos (digits2_pos p) + E - 24) (-149) - E) with 0 by lia.
      cbn [shr shr_m]. eexists _, _. split; [reflexivity|].
      destruct (Z.leb_spec E (128 - 24)); [|lia].
      cbn zeta. cbn [shr_m]. split; [|split; [|split]].
      * reflexivity.
      * cbn [F32.valid valid_binary]. unfold bounded, canonical_mantissa.
        change (fexp F32.prec F32.emax) with fexp32.
        rewrite fexp32_eq. apply andb_true_iff. split; [apply Z.eqb_eq | apply Z.leb_le];
          unfold F32.emax, F32.prec; lia.
      * intros; lia.
      * intros _. eauto.
Qed.

Lemma normal_quotient_bounds (m d n : Z) :
  2 ^ (d - 1) <= m < 2 ^ d -> n = d - 24 -> 0 <= n ->
  2 ^ 23 <= m / 2 ^ n < 2 ^ 24.
Proof.
  intros [Hlo Hhi] Hn Hn0.
  assert (Hp : 0 < 2 ^ n) by (apply Z.pow_pos_nonneg; lia).
  replace (d - 1) with (23 + n) in Hlo by lia. replace d with (24 + n) in Hhi by lia.
  rewrite Z.pow_add_r in Hlo, Hhi by lia.
  split.
  - apply Z.div_le_lower_bound; lia.
  - apply Z.div_lt_upper_bound; lia.
Qed.

Lemma subnormal_quotient_bounds (m d n : Z) :
  0 <= m < 2 ^ d -> d <= n + 23 -> 0 <= n ->
  0 <= m / 2 ^ n < 2 ^ 23.
Proof.
  intros [Hlo Hhi] Hd Hn0.
  assert (Hp : 0 < 2 ^ n) by (apply Z.pow_pos_nonneg; lia).
  assert (Hhi' : m < 2 ^ 23 * 2 ^ n).
  { rewrite <- Z.pow_add_r by lia. eapply Z.lt_le_trans; [exact Hhi|].
    apply Z.pow_le_mono_r; lia. }
  split.
  - apply Z.div_pos; lia.
  - apply Z.div_lt_upper_bound; lia.
Qed.

(** What [binary_round_aux] does to a mantissa that is at least as long as
    the format allows: the mantissa is cut to the exponent [E] of the format
    and rounded up or down, and not at all when the bits cut off are zero. *)
Lemma binary_round_aux_spec (s : bool) (m : positive) (e : Z) :
  let d := Zpos (digits2_pos m) in
  let E := fexp32 (d + e) in
  let n := E - e in
  0 <= n -> d + e <= 128 -> (d + e = 128 -> Zpos m mod 2 ^ n = 0) ->
  exists m1,
    let r := binary_round_aux 24 128 s (Zpos m) e loc_Exact in
    Zpos m / 2 ^ n <= m1 <= Zpos m / 2 ^ n + 1 /\
    (Zpos m mod 2 ^ n = 0 -> m1 = Zpos m / 2 ^ n) /\
    units r = cond_Zopp s (m1 * 2 ^ (E + 149)) /\
    F32.valid r = true /\
    (m1 = 0 -> r = S754_zero s) /\
    (0 < m1 -> exists m2 e2, r = S754_finite s m2 e2).
Proof.
  intros d E n Hn Hde Hmax.
  destruct (shr_spec (Zpos m) e n) as (mrs & Hshr & Hq & Hrs); [lia | lia |].
  assert (Hfirst : shr_fexp 24 128 (Zpos m) e loc_Exact = (mrs, E)).
  { unfold shr_fexp. cbn [Zdigits2 shr_record_of_loc]. change (fexp 24 128) with fexp32.
    fold d E n. rewrite Hshr. f_equal. unfold n. lia. }
  set (m1 := round_nearest_even (shr_m mrs) (loc_of_shr_record mrs)).
  pose proof (round_nearest_even_spec (shr_m mrs) (loc_of_shr_record mrs)) as [Hm1 Hexact].
  fold m1 in Hm1, Hexact. rewrite Hq in Hm1, Hexact.
  assert (Hm1def : round_nearest_even (shr_m mrs) (loc_of_shr_record mrs) = m1) by reflexivity.
  pose proof (digits2_pos_bounds m) as Hdig. fold d in Hdig.
  assert (HEeq : E = Z.max (d + e - 24) (-149)) by reflexivity.
  assert (Hneq : n = E - e) by reflexivity.
  clearbody m1 n E d.
  assert (HE : -149 <= E <= 104) by lia.
  assert (Hrange : (2 ^ 23 <= m1 <= 2 ^ 24 \/ (E = -149 /\ 0 <= m1 <= 2 ^ 23)) /\
                   (m1 = 2 ^ 24 -> E <= 103)).
  { destruct (Z_le_gt_dec (-149) (d + e - 24)) as [Hnormal|Hsub].
    - pose proof (normal_quotient_bounds (Zpos m) d n Hdig) as Hb.
      specialize (Hb ltac:(lia) ltac:(lia)). split; [left; lia|].
      intros Hc. destruct (Z.eq_dec (d + e) 128) as [H128|]; [|lia].
      specialize (Hexact (loc_of_shr_record_exact mrs
        ltac:(rewrite Hrs, (Hmax H128); reflexivity))). lia.
    - split; [right; split; [lia|] | lia].
      pose proof (subnormal_quotient_bounds (Zpos m) d n) as Hb.
      specialize (Hb ltac:(lia) ltac:(lia) ltac:(lia)). lia. }
  destruct Hrange as [Hrange Hcarry].
  destruct (round_finish s m1 E HE Hcarry Hrange)
    as (mrs2 & e2 & Hsh2 & Hunits & Hvalid & Hz & Hp).
  assert (Hr : binary_round_aux 24 128 s (Zpos m) e loc_Exact =
               match shr_m mrs2 with
               | Z0 => S754_zero s
               | Zpos m0 => if e2 <=? 128 - 24 then S754_finite s m0 e2 else S754_infinity s
               | Zneg _ => S754_nan
               end).
  { unfold binary_round_aux. rewrite Hfirst, Hm1def, Hsh2. reflexivity. }
  exists m1. cbn zeta. rewrite Hr.
  split; [exact Hm1|]. split; [|auto].
  intros Hmod. apply Hexact, loc_of_shr_record_exact.
  rewrite Hrs, Hmod. reflexivity.
Qed.

Lemma pos_iter_xO (mx d : positive) : Zpos (Pos.iter xO mx d) = Zpos mx * 2 ^ Zpos d.
Proof.
  change (Pos.iter xO mx d) with (shift_pos d mx).
  rewrite shift_pos_correct, Z.mul_comm. reflexivity.
Qed.

Lemma digits2_pos_shift (m m' : positive) (k : Z) :
  0 <= k -> Zpos m' = Zpos m * 2 ^ k ->
  Zpos (digits2_pos m') = Zpos (digits2_pos m) + k.
Proof.
  intros Hk Hm'. apply digits2_pos_unique. rewrite Hm'.
  pose proof (digits2_pos_bounds m) as [Hlo Hhi].
  assert (Hp : 0 < 2 ^ k) by (apply Z.pow_pos_nonneg; lia).
  assert (0 < Zpos (digits2_pos m)) by lia.
  replace (Zpos (digits2_pos m) + k - 1) with (Zpos (digits2_pos m) - 1 + k) by lia.
  rewrite !Z.pow_add_r by lia. split; nia.
Qed.

(** What [binary_round] does to any mantissa and exponent: with [g] the
    larger of the exponent of the format and the given exponent, the
    mantissa is cut to [g] and rounded up or down, exactly when no non-zero
    bit is cut off. *)
Lemma binary_round_spec (s : bool) (mx : positive) (ex : Z) :
  let d := Zpos (digits2_pos mx) in
  let E := fexp32 (d + ex) in
  let g := Z.max E ex in
  d + ex <= 127 ->
  exists m1,
    let r := binary_round 24 128 s mx ex in
    Zpos mx / 2 ^ (g - ex) <= m1 <= Zpos mx / 2 ^ (g - ex) + 1 /\
    (Zpos mx mod 2 ^ (g - ex) = 0 -> m1 = Zpos mx / 2 ^ (g - ex)) /\
    units r = cond_Zopp s (m1 * 2 ^ (g + 149)) /\
    F32.valid r = true /\
    (m1 = 0 -> r = S754_zero s) /\
    (0 < m1 -> exists m2 e2, r = S754_finite s m2 e2).
Proof.
  intros d E g Hde. unfold binary_round. change (fexp 24 128) with fexp32. fold d E.
  assert (HE : -149 <= E) by (unfold E; rewrite fexp32_eq; lia).
  unfold shl_align. destruct (E - ex) as [|p|p] eqn:Hp.
  - (* the exponent is the one of the format *)
    pose proof (binary_round_aux_spec s mx ex) as H. cbn zeta in H. fold d E in H.
    replace g with E by lia. replace (E - ex) with 0 in * by lia.
    apply H; lia.
  - (* the mantissa is too long: it is cut and rounded *)
    pose proof (binary_round_aux_spec s mx ex) as H. cbn zeta in H. fold d E in H.
    replace g with E by lia. apply H; lia.
  - (* the mantissa is short: it is aligned first, and nothing is cut *)
    set (mz := Pos.iter xO mx p).
    assert (Hmz : Zpos mz = Zpos mx * 2 ^ (ex - E)).
    { unfold mz. rewrite pos_iter_xO. f_equal. f_equal. lia. }
    pose proof (digits2_pos_shift mx mz (ex - E) ltac:(lia) Hmz) as Hdz. fold d in Hdz.
    pose proof (binary_round_aux_spec s mz E) as H. cbn zeta in H.
    rewrite Hdz in H. replace (d + (ex - E) + E) with (d + ex) in H by lia. fold E in H.
    replace (E - E) with 0 in H by lia.
    destruct H as (m1 & _ & Hex & Hu & Hv & Hz & Hpos); [lia | lia | lia |].
    change (2 ^ 0) with 1 in Hex. rewrite Z.mod_1_r, Z.div_1_r in Hex.
    specialize (Hex eq_refl). subst m1.
    exists (Zpos mx). cbn zeta. replace g with ex by lia.
    replace (ex - ex) with 0 by lia. change (2 ^ 0) with 1. rewrite Z.div_1_r.
    split; [lia|]. split; [auto|]. split.
    + rewrite Hu. f_equal. rewrite Hmz. rewrite <- Z.mul_assoc, <- Z.pow_add_r by lia.
      f_equal. f_equal. lia.
    + split; [exact Hv|]. split; [lia|]. intros _. apply Hpos. lia.
Qed.

Lemma bounded_inv (m : positive) (e : Z) :
  bounded F32.prec F32.emax m e = true ->
  e = fexp32 (Zpos (digits2_pos m) + e) /\ -149 <= e <= 104 /\
  Zpos (digits2_pos m) <= 24 /\ (Zpos (digits2_pos m) = 24 \/ e = -149).
Proof.
  unfold bounded, canonical_mantissa. change (fexp F32.prec F32.emax) with fexp32.
  intros H. apply andb_true_iff in H as [H1 H2].
  apply Z.eqb_eq in H1. apply Z.leb_le in H2. unfold F32.emax, F32.prec in H2.
  rewrite fexp32_eq in *. lia.
Qed.

Lemma units_finite_pos (m : positive) (e : Z) :
  -149 <= e -> 0 < Zpos m * 2 ^ (e + 149).
Proof. intros He. assert (0 < 2 ^ (e + 149)) by (apply Z.pow_pos_nonneg; lia). lia. Qed.

Lemma valid_finite_units_inj (s s' : bool) (m m' : positive) (e e' : Z) :
  bounded F32.prec F32.emax m e = true ->
  bounded F32.prec F32.emax m' e' = true ->
  units (S754_finite s m e) = units (S754_finite s' m' e') ->
  S754_finite s m e = S754_finite s' m' e'.
Proof.
  intros Hb Hb' Hu.
  apply bounded_inv in Hb as (He & Hr & _). apply bounded_inv in Hb' as (He' & Hr' & _).
  pose proof (units_finite_pos m e ltac:(lia)) as Hp.
  pose proof (units_finite_pos m' e' ltac:(lia)) as Hp'.
  cbn [units] in Hu.
  assert (Hs : s = s' /\ Zpos m * 2 ^ (e + 149) = Zpos m' * 2 ^ (e' + 149)).
  { destruct s, s'; cbn [cond_Zopp] in Hu; split; try reflexivity; lia. }
  destruct Hs as [<- Hu'].
  assert (Hlog : Z.log2 (Zpos m) + e = Z.log2 (Zpos m') + e').
  { apply (f_equal Z.log2) in Hu'. rewrite !Z.log2_mul_pow2 in Hu' by lia. lia. }
  assert (Hee : e = e').
  { rewrite He, He'. rewrite !digits2_pos_log2. f_equal. lia. }
  subst e'. f_equal.
  assert (0 < 2 ^ (e + 149)) by (apply Z.pow_pos_nonneg; lia).
  apply Z.mul_cancel_r in Hu'; [congruence | lia].
Qed.

Lemma mul_one_r (s : bool) (m : positive) (e : Z) :
  bounded F32.prec F32.emax m e = true ->
  F32.mul (S754_finite s m e) F32.one = S754_finite s m e.
Proof.
  intros Hb. pose proof (bounded_inv m e Hb) as (He & Hr & Hd & _).
  unfold F32.mul, F32.one, SFmul. rewrite xorb_false_r.
  change F32.prec with 24. change F32.emax with 128.
  assert (Hm : Zpos (m * 8388608) = Zpos m * 2 ^ 23) by (rewrite Pos2Z.inj_mul; reflexivity).
  pose proof (digits2_pos_shift m (m * 8388608) 23 ltac:(lia) Hm) as Hdig.
  pose proof (binary_round_aux_spec s (m * 8388608) (e + -23)) as H. cbn zeta in H.
  rewrite Hdig in H.
  replace (Zpos (digits2_pos m) + 23 + (e + -23)) with (Zpos (digits2_pos m) + e) in H by lia.
  rewrite <- He in H. replace (e - (e + -23)) with 23 in H by lia.
  destruct H as (m1 & _ & Hex & Hu & Hv & _ & Hpos);
    [lia | lia | intros _; rewrite Hm; apply Z.mod_mul; lia |].
  rewrite Hm, Z.mod_mul, Z.div_mul in Hex by lia. specialize (Hex eq_refl). subst m1.
  destruct (Hpos ltac:(lia)) as (m2 & e2 & Hr2). rewrite Hr2 in *.
  apply valid_finite_units_inj; [exact Hv | exact Hb | exact Hu].
Qed.

Lemma binary_round_integer (s : bool) (p : positive) :
  Zpos p < 2 ^ 100 ->
  exists m e,
    binary_round 24 128 s p 0 = S754_finite s m e /\
    bounded F32.prec F32.emax m e = true /\
    (Zpos p < 2 ^ 24 -> units (S754_finite s m e) = cond_Zopp s (Zpos p * 2 ^ 149)).
Proof.
  intros Hp. pose proof (binary_round_spec s p 0) as H. cbn zeta in H.
  pose proof (digits2_pos_bounds p) as Hdig.
  assert (Hd : 0 < Zpos (digits2_pos p) <= 100) by (split; [lia | apply digits2_pos_le; lia]).
  set (d := Zpos (digits2_pos p)) in *. rewrite fexp32_eq in H.
  replace (Z.max (Z.max (d + 0 - 24) (-149)) 0) with (Z.max (d - 24) 0) in H by lia.
  destruct H as (m1 & Hm1 & Hex & Hu & Hv & _ & Hpos); [lia|].
  assert (Hq : 1 <= Zpos p / 2 ^ (Z.max (d - 24) 0 - 0)).
  { apply Z.div_le_lower_bound; [apply Z.pow_pos_nonneg; lia|]. rewrite Z.mul_1_r.
    eapply Z.le_trans; [|apply Hdig]. apply Z.pow_le_mono_r; lia. }
  destruct (Hpos ltac:(lia)) as (m2 & e2 & Hr2). rewrite Hr2 in *.
  exists m2, e2. split; [reflexivity|]. split; [exact Hv|].
  intros Hsmall. assert (d <= 24) by (apply digits2_pos_le; lia).
  rewrite Z.max_r in * by lia. change (2 ^ (0 - 0)) with 1 in *.
  rewrite Z.div_1_r, Z.mod_1_r in *. rewrite (Hex eq_refl) in Hu. exact Hu.
Qed.

Lemma of_Z_finite (z : Z) :
  z <> 0 -> Z.abs z < 2 ^ 100 ->
  exists s m e, F32.of_Z z = S754_finite s m e /\ bounded F32.prec F32.emax m e = true.
Proof.
  intros Hz Hlt. unfold F32.of_Z, binary_normalize.
  destruct z as [|p|p]; [contradiction | |].
  - destruct (binary_round_integer false p Hlt) as (m & e & Hr & Hb & _). eauto.
  - destruct (binary_round_integer true p Hlt) as (m & e & Hr & Hb & _). eauto.
Qed.

Lemma of_Z_spec (z : Z) :
  Z.abs z < 2 ^ 24 ->
  units (F32.of_Z z) = z * 2 ^ 149 /\ F32.valid (F32.of_Z z) = true /\
  is_finite (F32.of_Z z) = true.
Proof.
  intros Hz. unfold F32.of_Z, binary_normalize.
  destruct z as [|p|p]; [repeat split | |].
  - destruct (binary_round_integer false p) as (m & e & Hr & Hb & Hu); [lia|].
    change F32.prec with 24 in *. change F32.emax with 128 in *. rewrite Hr.
    repeat split; [apply Hu; lia | exact Hb].
  - destruct (binary_round_integer true p) as (m & e & Hr & Hb & Hu); [lia|].
    change F32.prec with 24 in *. change F32.emax with 128 in *. rewrite Hr.
    repeat split; [rewrite Hu by lia; cbn [cond_Zopp]; lia | exact Hb].
Qed.

(** The value that [readwave] accumulates for the only channel of a mono
    frame is the sample itself, converted to [float]. *)
Lemma mono_accumulate (sample : Z) :
  Z.abs sample < 2 ^ 100 ->
  F32.add F32.zero (F32.mul (F32.of_Z sample) F32.one) = F32.of_Z sample.
Proof.
  intros Hs. destruct (Z.eq_dec sample 0) as [->|Hnz]; [reflexivity|].
  destruct (of_Z_finite sample Hnz Hs) as (s & m & e & -> & Hb).
  rewrite mul_one_r by exact Hb. reflexivity.
Qed.

(** ** Reading back what [writewave] wrote *)



Lemma quantize_sample_of (scale : float) (w : N) (x : float) :
  quantize scale w x =
    (q ← sample_of scale x;
     if (4 <? w)%N then Fault BufferOverrun else Ok (sample_bytes w q)).
Proof.
  unfold quantize, sample_of. fold (clip x).
  destruct (F32.to_int32 _); reflexivity.
Qed.



Lemma decode_frame_mono (w : N) (readbuf : list byte) (sample : Z) :
  decode_sample w (take (N.to_nat w) readbuf) = Ok sample ->
  Z.abs sample < 2 ^ 100 ->
  decode_frame w 1 mono_scale readbuf = Ok (F32.of_Z sample).
Proof.
  intros Hs Hr. unfold decode_frame, for_loop. change (N.to_nat 1) with 1%nat.
  rewrite for_from_S. cbv beta. change (0 * N.to_nat w)%nat with 0%nat. rewrite drop_0, Hs.
  cbn [mbind result_bind for_from]. change mono_scale with F32.one.
  now rewrite mono_accumulate.
Qed.



(** ** The arithmetic of the quantization *)

Lemma digits_exponent_le (m : positive) (e k : Z) :
  -149 <= e -> 0 <= k ->
  Zpos m * 2 ^ (e + 149) <= 2 ^ (k + 149) ->
  Zpos (digits2_pos m) + e <= k + 1.
Proof.
  intros He Hk Hle. pose proof (digits2_pos_bounds m) as [Hlo _].
  set (d := Zpos (digits2_pos m)) in *. assert (0 < d) by (unfold d; lia).
  destruct (Z_le_gt_dec (d + e) (k + 1)) as [|Hgt]; [assumption|exfalso].
  assert (H1 : 2 ^ (k + 149 + 1) <= 2 ^ (d - 1) * 2 ^ (e + 149)).
  { rewrite <- Z.pow_add_r by lia. apply Z.pow_le_mono_r; lia. }
  assert (H2 : 2 ^ (k + 149) < 2 ^ (k + 149 + 1)) by (apply Z.pow_lt_mono_r; lia).
  assert (0 < 2 ^ (e + 149)) by (apply Z.pow_pos_nonneg; lia). nia.
Qed.

(** Scaling by a power of two is exact for a float of magnitude at most 1. *)
Lemma mul_pow2_spec (s : bool) (m : positive) (e k : Z) :
  bounded F32.prec F32.emax m e = true ->
  Zpos m * 2 ^ (e + 149) <= 2 ^ 149 ->
  0 <= k <= 100 ->
  let r := F32.mul (S754_finite s m e) (pow2_float k) in
  units r = units (S754_finite s m e) * 2 ^ k /\
  F32.valid r = true /\ is_finite r = true.
Proof.
  intros Hb Hle Hk. pose proof (bounded_inv m e Hb) as (He & Hr & Hd & Hcan).
  pose proof (digits_exponent_le m e 0 ltac:(lia) ltac:(lia) Hle) as Hde.
  unfold F32.mul, pow2_float, SFmul. rewrite xorb_false_r.
  change F32.prec with 24. change F32.emax with 128.
  assert (Hm : Zpos (m * 8388608) = Zpos m * 2 ^ 23) by (rewrite Pos2Z.inj_mul; reflexivity).
  pose proof (digits2_pos_shift m (m * 8388608) 23 ltac:(lia) Hm) as Hdig.
  pose proof (binary_round_aux_spec s (m * 8388608) (e + (k - 23))) as H. cbn zeta in H.
  rewrite Hdig in H. set (d := Zpos (digits2_pos m)) in *.
  assert (0 < d) by (unfold d; lia).
  replace (d + 23 + (e + (k - 23))) with (d + e + k) in H by lia.
  rewrite fexp32_eq in H. rewrite fexp32_eq in He.
  set (E := Z.max (d + e + k - 24) (-149)) in *.
  set (n := E - (e + (k - 23))) in *.
  assert (Hn : 0 <= n <= 23) by (unfold n, E; lia).
  assert (Hdiv : Zpos m * 2 ^ 23 = Zpos m * 2 ^ (23 - n) * 2 ^ n).
  { rewrite <- Z.mul_assoc, <- Z.pow_add_r by lia. do 2 f_equal. lia. }
  destruct H as (m1 & _ & Hex & Hu & Hv & _ & Hpos); [lia | lia | lia |].
  rewrite Hm, Hdiv, Z.mod_mul, Z.div_mul in Hex
    by (apply Z.pow_nonzero; lia).
  specialize (Hex eq_refl). subst m1.
  assert (Hpow : 0 < 2 ^ (23 - n)) by (apply Z.pow_pos_nonneg; lia).
  destruct (Hpos ltac:(lia)) as (m2 & e2 & Hr2). rewrite Hr2 in *.
  cbv zeta. split; [|split; [exact Hv | reflexivity]].
  rewrite Hu. cbn [units]. destruct s; cbn [cond_Zopp].
  all: rewrite <- ?Z.mul_opp_l, <- !Z.mul_assoc, <- !Z.pow_add_r by lia.
  all: do 2 f_equal; unfold n; lia.
Qed.

(** Rounding never crosses a whole number below [2^24]: such a number is a
    binary32 value, and rounding goes to a neighbouring one. *)
Lemma round_units_monotone (mx : positive) (ex m1 k : Z) :
  let d := Zpos (digits2_pos mx) in
  let E := fexp32 (d + ex) in
  let g := Z.max E ex in
  -149 <= ex ->
  Zpos mx / 2 ^ (g - ex) <= m1 <= Zpos mx / 2 ^ (g - ex) + 1 ->
  (Zpos mx mod 2 ^ (g - ex) = 0 -> m1 = Zpos mx / 2 ^ (g - ex)) ->
  0 <= k < 2 ^ 24 ->
  (Zpos mx * 2 ^ (ex + 149) <= k * 2 ^ 149 -> m1 * 2 ^ (g + 149) <= k * 2 ^ 149) /\
  (k * 2 ^ 149 <= Zpos mx * 2 ^ (ex + 149) -> k * 2 ^ 149 <= m1 * 2 ^ (g + 149)).
Proof.
  intros d E g Hex Hm1 Hexact Hk.
  pose proof (digits2_pos_bounds mx) as Hdig. fold d in Hdig.
  assert (HE : E = Z.max (d + ex - 24) (-149)) by reflexivity.
  assert (Hg : g = Z.max E ex) by reflexivity.
  assert (Hd0 : 0 < d) by (unfold d; lia).
  clearbody g E d.
  set (n := g - ex) in *. assert (Hn : 0 <= n) by (unfold n; lia).
  set (P := 2 ^ n) in *. assert (HP : 0 < P) by (apply Z.pow_pos_nonneg; lia).
  set (u := 2 ^ (ex + 149)). assert (Hu : 0 < u) by (apply Z.pow_pos_nonneg; lia).
  assert (HG : 2 ^ (g + 149) = P * u).
  { unfold P, u. rewrite <- Z.pow_add_r by lia. f_equal. unfold n. lia. }
  rewrite HG.
  pose proof (Z.div_mod (Zpos mx) P ltac:(lia)) as Hdm.
  pose proof (Z.mod_pos_bound (Zpos mx) P HP) as Hrem.
  set (q := Zpos mx / P) in *. set (r := Zpos mx mod P) in *.
  destruct (Z.eq_dec n 0) as [Hn0|Hn0].
  { (* nothing is cut *)
    assert (r = 0) by (unfold r, P; rewrite Hn0; apply Z.mod_1_r).
    assert (P = 1) by (unfold P; rewrite Hn0; reflexivity).
    rewrite (Hexact ltac:(assumption)). replace (q * (P * u)) with (Zpos mx * u) by nia.
    tauto. }
  destruct (Z_le_gt_dec g 0) as [Hg0|Hg0].
  - (* the last place of the result is at most a unit: whole numbers are multiples of it *)
    assert (HU : 2 ^ 149 = 2 ^ (- g) * (P * u)).
    { unfold P, u. rewrite <- !Z.pow_add_r by lia. f_equal. unfold n. lia. }
    assert (0 < 2 ^ (- g)) by (apply Z.pow_pos_nonneg; lia).
    rewrite HU. set (k' := k * 2 ^ (- g)).
    replace (k * (2 ^ (- g) * (P * u))) with (k' * (P * u)) by (unfold k'; ring).
    split; intros Hle.
    + assert (Hle' : P * q + r <= k' * P) by nia.
      assert (m1 <= k'); [|nia].
      destruct (Z.eq_dec r 0) as [Hr0|Hr0].
      * rewrite (Hexact Hr0). nia.
      * assert (q < k') by nia. lia.
    + assert (Hle' : k' * P <= P * q + r) by nia.
      assert (k' <= q) by nia. nia.
  - (* the result is at least 2^24 *)
    assert (Hn24 : n = d - 24) by (unfold n in *; lia).
    pose proof (normal_quotient_bounds (Zpos mx) d n Hdig Hn24 Hn) as Hq. fold P q in Hq.
    assert (Hbig : 2 ^ 24 * 2 ^ 149 <= 2 ^ 23 * (P * u)).
    { rewrite <- HG. change (2 ^ 24) with (2 ^ 23 * 2). rewrite <- Z.mul_assoc.
      apply Z.mul_le_mono_nonneg_l; [lia|].
      change (2 * 2 ^ 149) with (2 ^ 150). apply Z.pow_le_mono_r; lia. }
    assert (0 < 2 ^ 149) by (apply Z.pow_pos_nonneg; lia).
    split; intros Hle.
    + exfalso. assert (2 ^ 23 * (P * u) <= Zpos mx * u) by nia. nia.
    + nia.
Qed.

Lemma shl_align_le (mx : positive) (ex ez : Z) :
  ez <= ex ->
  exists mz, shl_align mx ex ez = (mz, ez) /\ Zpos mz = Zpos mx * 2 ^ (ex - ez).
Proof.
  intros Hle. unfold shl_align. destruct (ez - ex) as [|p|p] eqn:Hp; [| lia |].
  - exists mx. replace ez with ex by lia. rewrite Z.sub_diag. split; [reflexivity | lia].
  - exists (Pos.iter xO mx p). split; [reflexivity|].
    rewrite pos_iter_xO. do 2 f_equal. lia.
Qed.

Lemma round_units_double (mx : positive) (ex m1 : Z) :
  let d := Zpos (digits2_pos mx) in
  let E := fexp32 (d + ex) in
  let g := Z.max E ex in
  -149 <= ex ->
  Zpos mx / 2 ^ (g - ex) <= m1 <= Zpos mx / 2 ^ (g - ex) + 1 ->
  (Zpos mx mod 2 ^ (g - ex) = 0 -> m1 = Zpos mx / 2 ^ (g - ex)) ->
  m1 * 2 ^ (g + 149) <= 2 * (Zpos mx * 2 ^ (ex + 149)).
Proof.
  intros d E g Hex Hm1 Hexact.
  pose proof (digits2_pos_bounds mx) as Hdig. fold d in Hdig.
  assert (HE : E = Z.max (d + ex - 24) (-149)) by reflexivity.
  assert (Hg : g = Z.max E ex) by reflexivity.
  clearbody g E d.
  set (n := g - ex) in *. assert (Hn : 0 <= n) by (unfold n; lia).
  set (P := 2 ^ n) in *. assert (HP : 0 < P) by (apply Z.pow_pos_nonneg; lia).
  set (u := 2 ^ (ex + 149)). assert (Hu : 0 < u) by (apply Z.pow_pos_nonneg; lia).
  assert (HG : 2 ^ (g + 149) = P * u).
  { unfold P, u. rewrite <- Z.pow_add_r by lia. f_equal. unfold n. lia. }
  rewrite HG.
  pose proof (Z.div_mod (Zpos mx) P ltac:(lia)) as Hdm.
  pose proof (Z.mod_pos_bound (Zpos mx) P HP) as Hrem.
  set (q := Zpos mx / P) in *. set (r := Zpos mx mod P) in *.
  destruct (Z.eq_dec n 0) as [Hn0|Hn0].
  - assert (r = 0) by (unfold r, P; rewrite Hn0; apply Z.mod_1_r).
    assert (P = 1) by (unfold P; rewrite Hn0; reflexivity).
    rewrite (Hexact ltac:(assumption)). nia.
  - assert (Hn24 : n = d - 24) by (unfold n in *; lia).
    pose proof (normal_quotient_bounds (Zpos mx) d n Hdig Hn24 Hn) as Hq. fold P q in Hq.
    change (2 ^ 23) with 8388608 in Hq. nia.
Qed.

Lemma round_signed (s : bool) (p : positive) (ez : Z) :
  -149 <= ez ->
  Zpos p * 2 ^ (ez + 149) <= 2 ^ (101 + 149) ->
  let r := binary_round 24 128 s p ez in
  let V := cond_Zopp s (Zpos p * 2 ^ (ez + 149)) in
  F32.valid r = true /\ is_finite r = true /\
  Z.abs (units r) <= 2 * Z.abs V /\
  forall k, Z.abs k < 2 ^ 24 ->
    (V <= k * 2 ^ 149 -> units r <= k * 2 ^ 149) /\
    (k * 2 ^ 149 <= V -> k * 2 ^ 149 <= units r).
Proof.
  intros Hez Hle.
  pose proof (digits_exponent_le p ez 101 Hez ltac:(lia) Hle) as Hde.
  pose proof (binary_round_spec s p ez) as H. cbn zeta in H.
  destruct H as (m1 & Hm1 & Hex & Hu & Hv & Hzero & Hpos); [lia|].
  cbv zeta. split; [exact Hv|].
  assert (Hq : 0 <= Zpos p / 2 ^ (Z.max (fexp32 (Zpos (digits2_pos p) + ez)) ez - ez)).
  { apply Z.div_pos; [lia|]. apply Z.pow_pos_nonneg; [lia|]. lia. }
  split.
  { destruct (Z.eq_dec m1 0) as [Hz|Hnz].
    - rewrite (Hzero Hz). reflexivity.
    - destruct (Hpos ltac:(lia)) as (m2 & e2 & ->). reflexivity. }
  pose proof (round_units_double p ez m1 Hez Hm1 Hex) as Hdouble. cbv zeta in Hdouble.
  rewrite Hu.
  set (g := Z.max (fexp32 (Zpos (digits2_pos p) + ez)) ez) in *.
  assert (HR : 0 <= m1 * 2 ^ (g + 149)).
  { apply Z.mul_nonneg_nonneg; [lia|]. apply Z.pow_nonneg. lia. }
  pose proof (units_finite_pos p ez Hez) as HW.
  assert (HU : 0 < 2 ^ 149) by (apply Z.pow_pos_nonneg; lia).
  set (R := m1 * 2 ^ (g + 149)) in *. set (W := Zpos p * 2 ^ (ez + 149)) in *.
  split; [destruct s; cbn [cond_Zopp]; lia|].
  intros k Hk.
  destruct (Z_le_gt_dec 0 k) as [Hk0|Hk0].
  - pose proof (round_units_monotone p ez m1 k Hez Hm1 Hex ltac:(lia)) as [H1 H2].
    fold g R W in H1, H2. destruct s; cbn [cond_Zopp]; split; intros; nia.
  - pose proof (round_units_monotone p ez m1 (- k) Hez Hm1 Hex ltac:(lia)) as [H1 H2].
    fold g R W in H1, H2. destruct s; cbn [cond_Zopp]; split; intros; nia.
Qed.

(** Adding 1 to a float: the sum is rounded, but never across a whole
    number below [2^24], and to at most twice its magnitude. *)
Lemma add_one_spec (y : float) :
  F32.valid y = true -> is_finite y = true ->
  Z.abs (units y) <= 2 ^ (100 + 149) ->
  let r := F32.add y F32.one in
  F32.valid r = true /\ is_finite r = true /\
  Z.abs (units r) <= 2 * Z.abs (units y + 2 ^ 149) /\
  forall k, Z.abs k < 2 ^ 24 ->
    (units y + 2 ^ 149 <= k * 2 ^ 149 -> units r <= k * 2 ^ 149) /\
    (k * 2 ^ 149 <= units y + 2 ^ 149 -> k * 2 ^ 149 <= units r).
Proof.
  intros Hv Hf Hy. destruct y as [sy| | |sy my ey]; try discriminate.
  - cbv zeta. split; [reflexivity|]. split; [reflexivity|]. split.
    + change (units (F32.add (S754_zero sy) F32.one)) with (2 ^ 149).
      change (units (S754_zero sy)) with 0. rewrite Z.add_0_l.
      assert (0 < 2 ^ 149) by (apply Z.pow_pos_nonneg; lia). lia.
    + intros k _. split; intros H; exact H.
  - cbn [F32.valid valid_binary] in Hv.
    pose proof (bounded_inv my ey Hv) as (_ & Hr & _).
    unfold F32.add, F32.one, SFadd. change F32.prec with 24. change F32.emax with 128.
    set (ez := Z.min ey (-23)).
    destruct (shl_align_le my ey ez ltac:(lia)) as (my' & -> & Hmy').
    destruct (shl_align_le 8388608 (-23) ez ltac:(lia)) as (o' & -> & Ho').
    cbn [fst cond_Zopp].
    assert (Hpow : forall a, 0 <= a -> 0 < 2 ^ a) by (intros; apply Z.pow_pos_nonneg; lia).
    assert (HV : (cond_Zopp sy (Zpos my') + Zpos o') * 2 ^ (ez + 149)
                 = units (S754_finite sy my ey) + 2 ^ 149).
    { cbn [units]. rewrite Z.mul_add_distr_r. f_equal.
      - destruct sy; cbn [cond_Zopp]; rewrite Hmy', <- ?Z.mul_opp_l, <- Z.mul_assoc,
          <- Z.pow_add_r by lia; do 2 f_equal; lia.
      - rewrite Ho'. change (Zpos 8388608) with (2 ^ 23).
        rewrite <- !Z.pow_add_r by lia. f_equal. lia. }
    set (M := cond_Zopp sy (Zpos my') + Zpos o') in *.
    assert (HM : Z.abs M * 2 ^ (ez + 149) <= 2 ^ (101 + 149)).
    { rewrite <- (Z.abs_eq (2 ^ (ez + 149))) by (apply Z.pow_nonneg; lia).
      rewrite <- Z.abs_mul, HV.
      replace (101 + 149) with (100 + 149 + 1) by lia. rewrite Z.pow_add_r by lia.
      specialize (Hpow 149 ltac:(lia)).
      assert (2 ^ 149 <= 2 ^ (100 + 149)) by (apply Z.pow_le_mono_r; lia). lia. }
    unfold binary_normalize. destruct M as [|p|p] eqn:HMeq.
    + cbv zeta. rewrite <- HV. repeat split; intros; cbn [units] in *; lia.
    + pose proof (round_signed false p ez ltac:(lia) HM) as H. cbv zeta in H.
      cbn [cond_Zopp] in H. rewrite HV in H. exact H.
    + pose proof (round_signed true p ez ltac:(lia) HM) as H. cbv zeta in H.
      cbn [cond_Zopp] in H.
      replace (- (Zpos p * 2 ^ (ez + 149))) with (Zneg p * 2 ^ (ez + 149)) in H by lia.
      rewrite HV in H. exact H.
Qed.


(** The conversion to [int32_t] cuts the fraction off, toward zero. *)
Lemma to_int32_spec (r : float) :
  F32.valid r = true -> is_finite r = true ->
  Z.abs (units r) < 2 ^ 31 * 2 ^ 149 ->
  exists t, F32.to_int32 r = Ok t /\
    Z.abs t * 2 ^ 149 <= Z.abs (units r) < (Z.abs t + 1) * 2 ^ 149 /\
    (0 <= units r -> 0 <= t) /\ (units r <= 0 -> t <= 0).
Proof.
  intros Hv Hf Hr. destruct r as [s| | |s m e]; try discriminate.
  - exists 0. cbn. repeat split; lia.
  - cbn [F32.valid valid_binary] in Hv. pose proof (bounded_inv m e Hv) as (_ & He & _).
    cbn [units] in Hr |- *. unfold F32.to_int32.
    set (A := Zpos m * 2 ^ (e + 149)) in *.
    assert (HU : 0 < 2 ^ 149) by (apply Z.pow_pos_nonneg; lia).
    assert (HA : 0 < A) by (apply units_finite_pos; lia).
    assert (Hsh : Z.shiftl (Zpos m) e = A / 2 ^ 149).
    { unfold A. destruct (Z_le_gt_dec 0 e) as [He0|He0].
      - rewrite Z.shiftl_mul_pow2 by lia. rewrite Z.pow_add_r by lia.
        rewrite Z.mul_assoc, Z.div_mul by lia. reflexivity.
      - rewrite Z.shiftl_div_pow2 by lia.
        replace (2 ^ 149) with (2 ^ (- e) * 2 ^ (e + 149))
          by (rewrite <- Z.pow_add_r by lia; f_equal; lia).
        rewrite Z.div_mul_cancel_r; [reflexivity | |];
          apply Z.pow_nonzero; lia. }
    rewrite Hsh.
    pose proof (Z.div_mod A (2 ^ 149) ltac:(lia)) as Hdm.
    pose proof (Z.mod_pos_bound A (2 ^ 149) HU) as Hrem.
    set (t := A / 2 ^ 149) in *.
    assert (Ht : 0 <= t < 2 ^ 31) by (destruct s; cbn [cond_Zopp] in Hr; nia).
    assert (Hin : in_int32 (cond_Zopp s t) = true).
    { unfold in_int32. apply andb_true_iff.
      split; [apply Z.leb_le | apply Z.ltb_lt]; destruct s; cbn [cond_Zopp]; lia. }
    rewrite Hin. exists (cond_Zopp s t). split; [reflexivity|].
    destruct s; cbn [cond_Zopp]; repeat split; try lia; nia.
Qed.

Lemma ltb_one_iff (x : float) :
  F32.valid x = true -> is_finite x = true ->
  (F32.ltb F32.one x = true <-> unit_one < units x).
Proof.
  unfold unit_one.
  intros Hv Hf. destruct x as [s| | |s m e]; try discriminate.
  - cbn. split; [discriminate | lia].
  - cbn [F32.valid valid_binary] in Hv.
    pose proof (bounded_inv m e Hv) as (_ & He & Hd & Hcan).
    pose proof (digits2_pos_bounds m) as Hdig.
    pose proof (units_finite_pos m e ltac:(lia)) as Hpos.
    unfold F32.ltb, SFltb, F32.one, SFcompare. cbn [units].
    destruct s; cbn [cond_Zopp]; [split; [discriminate | lia]|].
    destruct (Z.compare_spec (-23) e) as [Heq|Hlt|Hgt].
    + subst e. replace (-23 + 149) with 126 in * by lia.
      assert (HP : 0 < 2 ^ 126) by (apply Z.pow_pos_nonneg; lia).
      assert (HUP : 2 ^ 149 = 8388608 * 2 ^ 126) by reflexivity.
      rewrite HUP. clear HUP Hdig Hd Hcan He Hv Hf Hpos.
      generalize dependent (2 ^ 126). intros P HP.
      destruct (Pos.compare_cont Eq 8388608 m) eqn:Hc.
      * apply Pos.compare_eq_iff in Hc. subst m. split; [discriminate | lia].
      * assert (Hlt : 8388608 < Zpos m) by exact Hc. clear Hc.
        split; [intros _; apply Z.mul_lt_mono_pos_r; lia | reflexivity].
      * assert (Hgt : 8388608 > Zpos m) by exact Hc. clear Hc.
        split; [discriminate | intros H; apply Z.mul_lt_mono_pos_r in H; lia].
    + split; [intros _ | reflexivity].
      assert (Zpos (digits2_pos m) = 24) by lia.
      replace (Zpos (digits2_pos m) - 1) with 23 in Hdig by lia.
      assert (2 ^ 150 <= 2 ^ 23 * 2 ^ (e + 149)).
      { rewrite <- Z.pow_add_r by lia. apply Z.pow_le_mono_r; lia. }
      assert (2 ^ 149 < 2 ^ 150) by (apply Z.pow_lt_mono_r; lia).
      assert (0 < 2 ^ (e + 149)) by (apply Z.pow_pos_nonneg; lia). nia.
    + split; [discriminate | intros Hlt; exfalso].
      assert (Zpos m < 2 ^ 24).
      { eapply Z.lt_le_trans; [apply Hdig|]. apply Z.pow_le_mono_r; lia. }
      assert (2 ^ 24 * 2 ^ (e + 149) <= 2 ^ 149).
      { rewrite <- Z.pow_add_r by lia. apply Z.pow_le_mono_r; lia. }
      assert (0 < 2 ^ (e + 149)) by (apply Z.pow_pos_nonneg; lia). nia.
Qed.

Lemma ltb_minus_one_iff (x : float) :
  F32.valid x = true -> is_finite x = true ->
  (F32.ltb x F32.minus_one = true <-> units x < - unit_one).
Proof.
  unfold unit_one.
  intros Hv Hf. destruct x as [s| | |s m e]; try discriminate.
  - cbn. destruct s; (split; [discriminate | lia]).
  - cbn [F32.valid valid_binary] in Hv.
    pose proof (bounded_inv m e Hv) as (_ & He & Hd & Hcan).
    pose proof (digits2_pos_bounds m) as Hdig.
    pose proof (units_finite_pos m e ltac:(lia)) as Hpos.
    assert (HU : 0 < 2 ^ 149) by (apply Z.pow_pos_nonneg; lia).
    unfold F32.ltb, SFltb, F32.minus_one, SFcompare. cbn [units].
    destruct s; cbn [cond_Zopp]; [|split; [discriminate | lia]].
    destruct (Z.compare_spec e (-23)) as [Heq|Hlt|Hgt].
    + subst e. replace (-23 + 149) with 126 in * by lia.
      assert (HP : 0 < 2 ^ 126) by (apply Z.pow_pos_nonneg; lia).
      assert (HUP : 2 ^ 149 = 8388608 * 2 ^ 126) by reflexivity.
      rewrite HUP. clear HUP HU Hdig Hd Hcan He Hv Hf Hpos.
      generalize dependent (2 ^ 126). intros P HP.
      destruct (Pos.compare_cont Eq m 8388608) eqn:Hc; cbn [CompOpp].
      * apply Pos.compare_eq_iff in Hc. subst m. split; [discriminate | lia].
      * assert (Hlt : Zpos m < 8388608) by exact Hc. clear Hc.
        split; [discriminate | intros H].
        assert (H' : 8388608 * P < Zpos m * P) by lia.
        apply Z.mul_lt_mono_pos_r in H'; lia.
      * assert (Hgt : Zpos m > 8388608) by exact Hc. clear Hc.
        split; [intros _ | reflexivity].
        assert (H' : 8388608 * P < Zpos m * P) by (apply Z.mul_lt_mono_pos_r; lia).
        lia.
    + split; [discriminate | intros Hlt'; exfalso].
      assert (Zpos m < 2 ^ 24).
      { eapply Z.lt_le_trans; [apply Hdig|]. apply Z.pow_le_mono_r; lia. }
      assert (2 ^ 24 * 2 ^ (e + 149) <= 2 ^ 149).
      { rewrite <- Z.pow_add_r by lia. apply Z.pow_le_mono_r; lia. }
      assert (0 < 2 ^ (e + 149)) by (apply Z.pow_pos_nonneg; lia). nia.
    + split; [intros _ | reflexivity].
      assert (Zpos (digits2_pos m) = 24) by lia.
      replace (Zpos (digits2_pos m) - 1) with 23 in Hdig by lia.
      assert (2 ^ 150 <= 2 ^ 23 * 2 ^ (e + 149)).
      { rewrite <- Z.pow_add_r by lia. apply Z.pow_le_mono_r; lia. }
      assert (2 ^ 149 < 2 ^ 150) by (apply Z.pow_lt_mono_r; lia).
      assert (0 < 2 ^ (e + 149)) by (apply Z.pow_pos_nonneg; lia). nia.
Qed.

Lemma unit_one_pos : 0 < unit_one.
Proof. reflexivity. Qed.

Lemma clip_spec (x : float) :
  F32.valid x = true -> F32.is_nan x = false ->
  let c := clip x in
  F32.valid c = true /\ is_finite c = true /\
  - unit_one <= units c <= unit_one /\
  (is_finite x = true -> - unit_one <= units x <= unit_one -> c = x).
Proof.
  intros Hv Hnan. pose proof unit_one_pos as HU.
  assert (Hone : units F32.one = unit_one) by reflexivity.
  assert (Hmone : units F32.minus_one = - unit_one) by reflexivity.
  destruct (is_finite x) eqn:Hf.
  - cbv zeta. unfold clip.
    destruct (F32.ltb F32.one x) eqn:H1.
    + apply (ltb_one_iff x Hv Hf) in H1.
      change (F32.ltb F32.one F32.minus_one) with false. cbv iota.
      rewrite Hone. repeat split; try reflexivity; try lia.
    + assert (H1' : ~ unit_one < units x).
      { intros H. apply (ltb_one_iff x Hv Hf) in H. congruence. }
      destruct (F32.ltb x F32.minus_one) eqn:H2.
      * apply (ltb_minus_one_iff x Hv Hf) in H2.
        rewrite Hmone. repeat split; try reflexivity; try lia.
      * assert (H2' : ~ units x < - unit_one).
        { intros H. apply (ltb_minus_one_iff x Hv Hf) in H. congruence. }
        repeat split; try assumption; try lia.
  - destruct x as [s|s| |s m e]; try discriminate.
    destruct s; cbv zeta; unfold clip; cbn; repeat split; try discriminate;
      unfold unit_one; cbn; lia.
Qed.

Lemma quantization_scale_pow2 (w : N) :
  (1 <= w <= 4)%N -> quantization_scale w = Ok (pow2_float (8 * Z.of_N w)).
Proof. intros Hw. destruct (width_cases w Hw) as [-> | [-> | [-> | ->]]]; reflexivity. Qed.

Lemma scaled_clip_spec (x : float) (k : Z) :
  F32.valid x = true -> F32.is_nan x = false -> 0 <= k <= 100 ->
  let y := F32.mul (clip x) (pow2_float k) in
  F32.valid y = true /\ is_finite y = true /\ units y = units (clip x) * 2 ^ k.
Proof.
  intros Hv Hnan Hk. destruct (clip_spec x Hv Hnan) as (Hcv & Hcf & Hcu & _).
  cbv zeta in *. destruct (clip x) as [s| | |s m e]; try discriminate.
  - repeat split.
  - cbn [F32.valid valid_binary] in Hcv.
    pose proof (mul_pow2_spec s m e k Hcv) as H. cbv zeta in H.
    destruct H as (Hu & Hvr & Hfr); [|lia|].
    + cbn [units] in Hcu. unfold unit_one in Hcu. destruct s; cbn [cond_Zopp] in Hcu; lia.
    + repeat split; assumption.
Qed.


(** Arithmetic of the truncation and of the shift, in units [U]. *)
Lemma trunc_between (U R t a b : Z) :
  0 < U ->
  Z.abs t * U <= Z.abs R < (Z.abs t + 1) * U ->
  (0 <= R -> 0 <= t) -> (R <= 0 -> t <= 0) ->
  (a * U <= R -> a <= t) /\ (R <= b * U -> t <= b).
Proof.
  intros HU Habs Hpos Hneg.
  destruct (Z_le_gt_dec 0 R) as [HR|HR].
  - specialize (Hpos HR). rewrite (Z.abs_eq t), (Z.abs_eq R) in Habs by lia.
    split; intros H.
    + assert (a * U < (t + 1) * U) by lia.
      apply Z.mul_lt_mono_pos_r in H0; lia.
    + assert (t * U <= b * U) by lia.
      apply Z.mul_le_mono_pos_r in H0; lia.
  - specialize (Hneg ltac:(lia)). rewrite (Z.abs_neq t), (Z.abs_neq R) in Habs by lia.
    split; intros H.
    + assert (a * U <= t * U) by lia.
      apply Z.mul_le_mono_pos_r in H0; lia.
    + assert ((t - 1) * U < b * U) by lia.
      apply Z.mul_lt_mono_pos_r in H0; lia.
Qed.

Lemma quantization_arith (U K2 H2 Y R t : Z) :
  0 < U -> 2 * H2 = K2 -> K2 <= 2 ^ 24 ->
  (1 - K2) * U <= Y + U <= (K2 - 1) * U ->
  (forall k, Z.abs k < 2 ^ 24 ->
     (Y + U <= k * U -> R <= k * U) /\ (k * U <= Y + U -> k * U <= R)) ->
  Z.abs t * U <= Z.abs R < (Z.abs t + 1) * U ->
  (0 <= R -> 0 <= t) -> (R <= 0 -> t <= 0) ->
  - U < 2 * (t / 2) * U - Y < 2 * U /\ - H2 <= t / 2 < H2.
Proof.
  intros HU HH2 HK HV Hmono Habs Hpos Hneg.
  change (2 ^ 24) with 16777216 in *.
  set (V := Y + U) in *.
  pose proof (Z.div_mod V U ltac:(lia)) as Hkf.
  pose proof (Z.mod_pos_bound V U HU) as Hkr.
  set (kf := V / U) in *. set (kr := V mod U) in *.
  assert (Hkf1 : 1 - K2 <= kf).
  { assert (H : (1 - K2) * U < (kf + 1) * U) by lia.
    apply Z.mul_lt_mono_pos_r in H; lia. }
  assert (Hkf2 : kf <= K2 - 1).
  { assert (H : kf * U <= (K2 - 1) * U) by lia.
    apply Z.mul_le_mono_pos_r in H; lia. }
  destruct (trunc_between U R t kf (kf + 1) HU Habs Hpos Hneg) as [Hlo Hhi].
  destruct (trunc_between U R t kf kf HU Habs Hpos Hneg) as [_ Hhi0].
  destruct (Hmono kf ltac:(lia)) as [Hup Hdown].
  specialize (Hdown ltac:(lia)). specialize (Hlo Hdown).
  pose proof (Z.div_mod t 2 ltac:(lia)) as Hq2.
  pose proof (Z.mod_pos_bound t 2 ltac:(lia)) as Hr2.
  set (q := t / 2) in *. set (b := t mod 2) in *.
  assert (Ht : t <= kf + 1 /\ (kr = 0 -> t = kf) /\ (kr <> 0 -> kf < K2 - 1)).
  { destruct (Z.eq_dec kr 0) as [Hz|Hnz].
    - specialize (Hup ltac:(lia)). specialize (Hhi0 Hup). lia.
    - assert (Hlt : kf < K2 - 1).
      { assert (H : kf * U < (K2 - 1) * U) by lia.
        apply Z.mul_lt_mono_pos_r in H; lia. }
      destruct (Hmono (kf + 1) ltac:(lia)) as [Hup' _].
      specialize (Hup' ltac:(lia)). specialize (Hhi Hup'). lia. }
  destruct Ht as (Ht1 & Ht2 & Ht3).
  assert (Hq_lo : (kf + 1) * U <= (2 * q + 2) * U).
  { apply Z.mul_le_mono_nonneg_r; lia. }
  assert (Hq_hi : 2 * q * U <= t * U).
  { apply Z.mul_le_mono_nonneg_r; lia. }
  assert (Ht_hi : t * U <= (kf + 1) * U).
  { apply Z.mul_le_mono_nonneg_r; lia. }
  destruct (Z.eq_dec kr 0) as [Hz|Hnz].
  - specialize (Ht2 Hz). split; [|lia]. split; lia.
  - specialize (Ht3 Hnz). split; [|lia]. split; lia.
Qed.

(** The quantization error: for a float [x] from -1 to the largest sample
    [1 - 2^(1-8w)], the sample [q] is within one step of [x * 2^(8w-1)]
    (less than one above, less than half below) and fits the sample width. *)
Lemma sample_of_bound (w : N) (x : float) :
  (1 <= w <= 3)%N -> F32.valid x = true -> is_finite x = true ->
  - unit_one <= units x <= unit_one - 2 ^ (150 - 8 * Z.of_N w) ->
  exists q, sample_of (pow2_float (8 * Z.of_N w)) x = Ok q /\
    - unit_one < 2 * q * unit_one - units x * 2 ^ (8 * Z.of_N w) < 2 * unit_one /\
    - 2 ^ (8 * Z.of_N w - 1) <= q < 2 ^ (8 * Z.of_N w - 1).
Proof.
  intros Hw Hv Hf Hx. set (k := 8 * Z.of_N w) in *.
  assert (Hk : 8 <= k <= 24) by (unfold k; lia).
  assert (Hnan : F32.is_nan x = false) by (destruct x; try discriminate; reflexivity).
  pose proof unit_one_pos as HU.
  assert (HD : 0 < 2 ^ (150 - k)) by (apply Z.pow_pos_nonneg; lia).
  destruct (clip_spec x Hv Hnan) as (_ & _ & _ & Hclip).
  specialize (Hclip Hf ltac:(lia)). cbv zeta in Hclip.
  destruct (scaled_clip_spec x k Hv Hnan ltac:(lia)) as (Hyv & Hyf & Hyu).
  cbv zeta in *. rewrite Hclip in *. set (y := F32.mul x (pow2_float k)) in *.
  assert (HK : 0 < 2 ^ k <= 2 ^ 24).
  { split; [apply Z.pow_pos_nonneg; lia | apply Z.pow_le_mono_r; lia]. }
  assert (HDK : 2 ^ (150 - k) * 2 ^ k = 2 * unit_one).
  { rewrite <- Z.pow_add_r by lia. replace (150 - k + k) with 150 by lia. reflexivity. }
  assert (HK1 : 2 * 2 ^ (k - 1) = 2 ^ k).
  { rewrite <- Z.pow_succ_r by lia. f_equal. lia. }
  assert (HUeq : 2 ^ 149 = unit_one) by reflexivity.
  assert (Hbig : 2 ^ 24 * unit_one <= 2 ^ (100 + 149)).
  { unfold unit_one. rewrite <- Z.pow_add_r by lia. apply Z.pow_le_mono_r; lia. }
  set (K2 := 2 ^ k) in *. set (D := 2 ^ (150 - k)) in *.
  set (X := units x) in *.
  assert (HXlo : - unit_one * K2 <= X * K2) by (apply Z.mul_le_mono_nonneg_r; lia).
  assert (HXhi : X * K2 <= (unit_one - D) * K2) by (apply Z.mul_le_mono_nonneg_r; lia).
  assert (HUK : unit_one * K2 <= 2 ^ 24 * unit_one).
  { rewrite Z.mul_comm. apply Z.mul_le_mono_nonneg_r; lia. }
  assert (HY : (1 - K2) * unit_one <= units y + unit_one <= (K2 - 1) * unit_one).
  { rewrite Hyu. lia. }
  destruct (add_one_spec y Hyv Hyf) as (Hrv & Hrf & Hru & Hmono); [lia|].
  rewrite HUeq in *. set (r := F32.add y F32.one) in *.
  destruct (to_int32_spec r Hrv Hrf) as (t & Ht & Habs & Hpos & Hneg).
  { rewrite HUeq. change (2 ^ 31) with (128 * 2 ^ 24). lia. }
  rewrite HUeq in *.
  unfold sample_of. rewrite Hclip. fold y r. rewrite Ht. cbn [mbind result_bind].
  eexists. split; [reflexivity|].
  rewrite Z.shiftr_div_pow2 by lia. change (2 ^ 1) with 2.
  rewrite <- Hyu.
  apply (quantization_arith unit_one K2 (2 ^ (k - 1)) (units y) (units r) t);
    try assumption; lia.
Qed.

(** ** Floats as rational numbers *)








(** ** Writing and reading back a mono file *)

Lemma full_scale_bounds (w : N) :
  (1 <= w <= 3)%N ->
  0 < full_scale w <= 2 ^ 23 /\ 2 * full_scale w = 2 ^ (8 * Z.of_N w) /\
  2 ^ (150 - 8 * Z.of_N w) * full_scale w = unit_one.
Proof.
  intros Hw. unfold full_scale, unit_one.
  destruct w as [|[[|[]|]|[|[]|]|]]; try lia; vm_compute; repeat split; discriminate.
Qed.







(** ** The decoded values *)

Lemma decode_sample_signed (w : N) (frame : list byte) :
  (1 <= w <= 4)%N -> length frame = N.to_nat w ->
  decode_sample w frame = Ok (signed_sample w frame) /\
  - full_scale w <= signed_sample w frame < full_scale w.
Proof.
  intros Hw Hlen. rewrite decode_sample_spec by assumption.
  pose proof (le_value_bound frame) as Hb. rewrite Hlen, N2Nat.id in Hb.
  assert (Hu : 0 <= Z.of_N (le_value frame) < 256 ^ Z.of_N w).
  { split; [lia|]. change 256 with (Z.of_N 256). rewrite <- N2Z.inj_pow. lia. }
  clear Hb. unfold signed_sample, full_scale.
  set (u := Z.of_N (le_value frame)) in *. clearbody u.
  destruct (width_cases w Hw) as [-> | [-> | [-> | ->]]];
    cbn [N.eqb Pos.eqb Z.of_N] in *.
  - eval_pows. split; [reflexivity | lia].
  - destruct (Z.ltb_spec u (2 ^ (8 * 2 - 1))) as [Hc|Hc];
      unfold wrap_width; cbn [Z.of_N]; eval_pows;
      (split; [f_equal; Z.to_euclidean_division_equations; lia | lia]).
  - destruct (Z.ltb_spec u (2 ^ (8 * 3 - 1))) as [Hc|Hc];
      unfold wrap_width; cbn [Z.of_N]; eval_pows;
      (split; [f_equal; Z.to_euclidean_division_equations; lia | lia]).
  - destruct (Z.ltb_spec u (2 ^ (8 * 4 - 1))) as [Hc|Hc];
      unfold wrap_width; cbn [Z.of_N]; eval_pows;
      (split; [f_equal; Z.to_euclidean_division_equations; lia | lia]).
Qed.

Lemma decode_channels_from (w : N) (scale : float) (pre : list byte)
    (channels : list (list byte)) (start : nat) (acc : float) :
  (1 <= w <= 4)%N -> Forall (fun channel => length channel = N.to_nat w) channels ->
  length pre = (start * N.to_nat w)%nat ->
  for_from start (length channels)
    (fun j acc =>
       sample ← decode_sample w
                  (take (N.to_nat w) (drop (j * N.to_nat w) (pre ++ concat channels)));
       Ok (F32.add acc (F32.mul (F32.of_Z sample) scale))) acc
  = Ok (fold_left
          (fun acc channel => F32.add acc (F32.mul (F32.of_Z (signed_sample w channel)) scale))
          channels acc).
Proof.
  intros Hw Hch. revert pre start acc.
  induction Hch as [|channel channels Hlen _ IH]; intros pre start acc Hpre; [reflexivity|].
  cbn [length concat fold_left]. rewrite for_from_S. cbv beta.
  rewrite drop_app_length' by (symmetry; exact Hpre).
  rewrite take_app_length' by (symmetry; exact Hlen).
  destruct (decode_sample_signed w channel Hw Hlen) as (-> & _).
  cbn [mbind result_bind].
  rewrite (app_assoc pre channel (concat channels)).
  apply IH. rewrite length_app, Hpre, Hlen. simpl. lia.
Qed.

Lemma decode_frame_channels (w c : N) (scale : float) (channels : list (list byte)) :
  (1 <= w <= 4)%N -> length channels = N.to_nat c ->
  Forall (fun channel => length channel = N.to_nat w) channels ->
  decode_frame w c scale (concat channels) = Ok (downmix w scale channels).
Proof.
  intros Hw Hc Hch. unfold decode_frame, for_loop, downmix. rewrite <- Hc.
  apply (decode_channels_from w scale [] channels 0 F32.zero Hw Hch). reflexivity.
Qed.








(** ** The quantization at the ends of the range *)

(** C4, evaluated: the value +1.0 passes the clipping unchanged and its
    sample [2^(8w-1)] does not fit the [w] bytes: at the widths 1, 2 and 3 the
    bytes written are those of the most negative sample, and the file reads
    back as [-2^(8w-1)]; at the width 4 already 0.5 takes the conversion to
    [int32_t] out of range.  The conversion truncates toward zero, so a
    negative value such as [-1.5/65536] at the width 2 gets the sample 0 where
    the floor gives -1. *)
Theorem C4_full_scale_wraps :
  clip F32.one = F32.one /\
  quantized 1 F32.one = Ok [x00] /\ decode_sample 1 [x00] = Ok (-128) /\
  quantized 2 F32.one = Ok [x00; x80] /\ decode_sample 2 [x00; x80] = Ok (-32768) /\
  quantized 3 F32.one = Ok [x00; x00; x80] /\
  decode_sample 3 [x00; x00; x80] = Ok (-8388608) /\
  (exists fs', writewave fs0 "a.wav" [F32.one] 8000 2 1 = Ok (true, fs') /\
     written_data fs' "a.wav" = Some [x00; x80] /\
     readwave fs' "a.wav" [] F32.zero
       = Returned true [F32.of_Z (-32768)] (F32.of_Z 8000)) /\
  quantized 4 half = Fault FloatToIntRange /\
  writewave fs0 "a.wav" [half] 8000 4 1 = Fault FloatToIntRange /\
  clip small_negative = small_negative /\
  sample_of (pow2_float 16) small_negative = Ok 0 /\
  floor_sample 2 (F32.to_Q small_negative) = -1.
Proof.
  do 7 (split; [vm_compute; reflexivity|]).
  split.
  { eexists. split; [vm_compute; reflexivity|]. split; vm_compute; reflexivity. }
  repeat split; vm_compute; reflexivity.
Qed.

(** * Further properties of the reader and the writer *)

Lemma quantize_no_throw (scale : float) (w : N) (x : float) (e : error) :
  quantize scale w x <> Throw e.
Proof.
  rewrite quantize_sample_of. unfold sample_of.
  destruct (F32.to_int32 _) as [t| |] eqn:Ht; cbn [mbind result_bind].
  - destruct (4 <? w)%N; discriminate.
  - unfold F32.to_int32 in Ht.
    destruct (F32.add _ _) as [| | |s m ex]; try discriminate.
    destruct (in_int32 _); discriminate.
  - discriminate.
Qed.

Lemma quantize_input_no_throw (scale : float) (w : N) (input : list float) (e : error) :
  quantize_input scale w input <> Throw e.
Proof.
  induction input as [|x input IH]; cbn [quantize_input]; [discriminate|].
  pose proof (quantize_no_throw scale w x e) as Hx.
  destruct (quantize scale w x) as [bs| |]; cbn [mbind result_bind];
    [|congruence|discriminate].
  destruct (quantize_input scale w input) as [rest| |]; cbn [mbind result_bind];
    [discriminate|congruence|discriminate].
Qed.

(** After the three setters the writer holds the three parameters. *)
Lemma writer_chain (A : Type) (Fs w c : N) (k : Wave_write.t -> result A) :
  Wave_write.on_object (Wave_write.setnchannels c) Wave_write.construct (fun f =>
  Wave_write.on_object (Wave_write.setsampwidth w) f (fun f =>
  Wave_write.on_object (Wave_write.setframerate Fs) f k))
  = if (c <? 1)%N then Fault Terminate
    else if (w <? 1)%N || (4 <? w)%N then Fault Terminate
    else if (Fs <=? 0)%N then Fault Terminate
    else k (Wave_write.mk false (chunk_write (new_chunk "RIFF") (bytes_of_string "WAVE"))
              None 0 c Fs w "NONE" "not compressed").
Proof.
  unfold Wave_write.on_object at 1. unfold Wave_write.setnchannels.
  cbn [Wave_write.construct Wave_write.headerwritten].
  destruct (N.ltb_spec c 1); [reflexivity|].
  unfold Wave_write.on_object at 1. unfold Wave_write.setsampwidth.
  cbn [Wave_write.headerwritten].
  destruct ((w <? 1)%N || (4 <? w)%N) eqn:Hw.
  { unfold Wave_write.close, Wave_write._ensure_header_written.
    cbn [Wave_write.headerwritten Wave_write.nchannels Wave_write.sampwidth negb].
    destruct (N.eqb_spec c 0); [lia|]. reflexivity. }
  unfold Wave_write.on_object at 1. unfold Wave_write.setframerate.
  cbn [Wave_write.headerwritten].
  destruct (N.leb_spec Fs 0).
  { unfold Wave_write.close, Wave_write._ensure_header_written.
    cbn [Wave_write.headerwritten Wave_write.nchannels Wave_write.sampwidth
         Wave_write.framerate negb].
    destruct (N.eqb_spec c 0); [lia|].
    destruct (N.eqb_spec w 0); [subst; discriminate|].
    reflexivity. }
  reflexivity.
Qed.

Lemma writeframes_close_no_throw (Fs w c nframes : N) (q : list byte) (fs : filesystem)
    (filename : string) (e : error) :
  (1 <= c)%N -> (1 <= w)%N -> (0 < Fs)%N ->
  Wave_write.on_object (Wave_write.writeframes q nframes)
    (Wave_write.mk false (chunk_write (new_chunk "RIFF") (bytes_of_string "WAVE"))
       None 0 c Fs w "NONE" "not compressed") (fun f =>
  Wave_write.on_object Wave_write.close f (fun f =>
  Ok (true, store_file fs filename (Wave_write.file_chunk f)))) <> Throw e.
Proof.
  intros Hc Hw HFs.
  unfold Wave_write.on_object at 1. unfold Wave_write.writeframes.
  unfold Wave_write._ensure_header_written at 1.
  cbn [Wave_write.headerwritten Wave_write.nchannels Wave_write.sampwidth
       Wave_write.framerate negb].
  destruct (N.eqb_spec c 0); [lia|]. destruct (N.eqb_spec w 0); [lia|].
  destruct (N.eqb_spec Fs 0); [lia|].
  cbn [addSubchunk Wave_write.file_chunk chunk_write new_chunk chunk_subchunks chunk_id
       chunk_size chunk_payload set_subchunk app length fst snd mbind result_bind
       Wave_write.data_chunk Wave_write.nchannels Wave_write.sampwidth].
  cbn [insert list_insert lookup list_lookup app length].
  destruct (_ <=? _)%N; [|discriminate].
  unfold Wave_write.on_object, Wave_write.close, Wave_write._ensure_header_written.
  cbn [Wave_write.headerwritten negb Wave_write.file_chunk]. discriminate.
Qed.

Lemma quantization_scale_wide (w : N) (scale : float) :
  quantization_scale w = Ok scale -> (8 <= w)%N -> (2 ^ 61 <= w)%N.
Proof.
  unfold quantization_scale. intros H Hw.
  destruct (N.leb_spec 64 ((8 * w) mod 2 ^ 64)) as [|Hlt]; [discriminate|].
  destruct (N.le_gt_cases (2 ^ 61) w) as [|Hsmall]; [assumption|exfalso].
  assert (H64 : (8 * 2 ^ 61 = 2 ^ 64)%N) by reflexivity.
  rewrite N.mod_small in Hlt by lia. lia.
Qed.

Lemma new_quantized_input_cases (input_size w : N) :
  (exists n, new_quantized_input input_size w = Ok n) \/
  (new_quantized_input input_size w = Throw AllocationError /\
   (8 <= w)%N /\ input_size <> 0%N).
Proof.
  unfold new_quantized_input.
  destruct (N.leb_spec 8 w) as [Hw|Hw]; cbn [andb]; [|left; eauto].
  destruct (N.leb_spec (2 ^ 61) ((input_size * w) mod 2 ^ 64)) as [Hn|Hn]; [|left; eauto].
  right. split; [reflexivity|]. split; [exact Hw|].
  intros ->. rewrite N.mul_0_l in Hn. change (0 mod 2 ^ 64)%N with 0%N in Hn.
  assert (0 < 2 ^ 61)%N by reflexivity. lia.
Qed.

(** X1: no exception thrown in [wave.cc] escapes [writewave].  Every [throw]
    of the setters leaves the local [Wave_write] object without its header,
    so the destructor, which calls [close()], throws again while the stack is
    unwound.  The one exception that can escape is the standard library's
    failure to allocate [quantized_input], and it needs a sample width of
    [2^61] or more and a non-empty input; it does escape whenever such a
    request is [2^61] bytes or more. *)
Theorem X1_writewave_throws_only_allocation_error (fs : filesystem) (filename : string)
    (input : list float) (Fs w c : N) :
  (forall e, writewave fs filename input Fs w c = Throw e ->
     e = AllocationError /\ (2 ^ 61 <= w)%N /\ input <> []) /\
  (ofstream_is_open fs filename = true -> (1 <= c)%N ->
   (2 ^ 61 <= w)%N -> ((8 * w) mod 2 ^ 64 < 64)%N ->
   (2 ^ 61 <= (N.of_nat (length input) * w) mod 2 ^ 64)%N ->
   writewave fs filename input Fs w c = Throw AllocationError).
Proof.
  split.
  - intros e. unfold writewave.
    destruct (negb (ofstream_is_open fs filename)); [discriminate|].
    unfold udiv. destruct (c =? 0)%N; [discriminate|]. cbn [mbind result_bind].
    destruct (quantization_scale w) as [scale| |] eqn:Hs; cbn [mbind result_bind];
      [| |discriminate].
    2:{ unfold quantization_scale in Hs. destruct (_ <=? _)%N; discriminate. }
    destruct (new_quantized_input_cases (N.of_nat (length input)) w)
      as [(n & ->)|(-> & Hw & HL)]; cbn [mbind result_bind].
    + pose proof (quantize_input_no_throw scale w input e) as Hq.
      destruct (quantize_input scale w input) as [q| |]; cbn [mbind result_bind];
        [|congruence|discriminate].
      rewrite writer_chain.
      destruct (N.ltb_spec c 1); [discriminate|].
      destruct (N.ltb_spec w 1); cbn [orb]; [discriminate|].
      destruct (4 <? w)%N; [discriminate|].
      destruct (N.leb_spec Fs 0); [discriminate|].
      intros Hthrow. exfalso. revert Hthrow. apply writeframes_close_no_throw; lia.
    + intros [= <-]. split; [reflexivity|].
      split; [exact (quantization_scale_wide w scale Hs Hw)|].
      intros ->. apply HL. reflexivity.
  - intros Hopen Hc Hw Hshift Hn. unfold writewave. rewrite Hopen. cbn [negb].
    unfold udiv. destruct (N.eqb_spec c 0); [lia|]. cbn [mbind result_bind].
    unfold quantization_scale. destruct (N.leb_spec 64 ((8 * w) mod 2 ^ 64)); [lia|].
    cbn [mbind result_bind]. unfold new_quantized_input.
    assert (H61 : (8 <= 2 ^ 61)%N) by (intros H'; discriminate).
    destruct (N.leb_spec 8 w); [|lia].
    destruct (N.leb_spec (2 ^ 61) ((N.of_nat (length input) * w) mod 2 ^ 64)); [|lia].
    reflexivity.
Qed.

Lemma X1_writewave_throws_only_witness :
  (AllocationError = AllocationError /\ (2 ^ 61 <= 2 ^ 61)%N /\ [half] <> []) /\
  writewave fs0 "a.wav" [half] 8000 (2 ^ 61) 1 = Throw AllocationError.
Proof.
  split.
  - apply (proj1 (X1_writewave_throws_only_allocation_error fs0 "a.wav" [half] 8000 (2 ^ 61) 1)
             AllocationError).
    vm_compute. reflexivity.
  - apply (proj2 (X1_writewave_throws_only_allocation_error fs0 "a.wav" [half] 8000 (2 ^ 61) 1)).
    + reflexivity.
    + vm_compute. discriminate.
    + vm_compute. discriminate.
    + vm_compute. reflexivity.
    + vm_compute. discriminate.
Defined.

(** X2: with a file that can be opened, a channel count of 0, a sample width
    outside 1..4 or a frame rate of 0 never lets [writewave] return.  With a
    sample width below [2^61] it ends in a fault, not in an exception; when
    the quantization loop gets through (and the channel count is not 0) the
    fault is the termination by the destructor. *)
Theorem X2_writewave_bad_parameter_is_fatal (fs : filesystem) (filename : string)
    (input : list float) (Fs w c : N) :
  ofstream_is_open fs filename = true ->
  c = 0%N \/ ~ (1 <= w <= 4)%N \/ Fs = 0%N ->
  (forall r, writewave fs filename input Fs w c <> Ok r) /\
  ((w < 2 ^ 61)%N -> exists f, writewave fs filename input Fs w c = Fault f) /\
  ((1 <= c)%N ->
   (exists scale q, quantization_scale w = Ok scale /\
                    quantize_input scale w input = Ok q) ->
   writewave fs filename input Fs w c = Fault Terminate).
Proof.
  intros Hopen Hbad.
  assert (Hq : forall scale, (exists q, quantize_input scale w input = Ok q) \/
                             (exists f, quantize_input scale w input = Fault f)).
  { intros scale. pose proof (quantize_input_no_throw scale w input) as Hn.
    destruct (quantize_input scale w input) as [q|e|f]; [eauto | | eauto].
    now destruct (Hn e). }
  assert (Hchain : (1 <= c)%N -> forall scale n q,
            quantization_scale w = Ok scale ->
            new_quantized_input (N.of_nat (length input)) w = Ok n ->
            quantize_input scale w input = Ok q ->
            writewave fs filename input Fs w c = Fault Terminate).
  { intros Hc scale n q Hs Hn Hsq.
    unfold writewave. rewrite Hopen. cbn [negb].
    unfold udiv. destruct (N.eqb_spec c 0); [lia|]. cbn [mbind result_bind].
    rewrite Hs. cbn [mbind result_bind]. rewrite Hn. cbn [mbind result_bind].
    rewrite Hsq. cbn [mbind result_bind].
    rewrite writer_chain.
    destruct (N.ltb_spec c 1); [lia|].
    destruct (N.ltb_spec w 1); cbn [orb]; [reflexivity|].
    destruct (N.ltb_spec 4 w); [reflexivity|].
    destruct (N.leb_spec Fs 0); [reflexivity|]. lia. }
  assert (Hcases : (exists f, writewave fs filename input Fs w c = Fault f) \/
                   (writewave fs filename input Fs w c = Throw AllocationError /\
                    (2 ^ 61 <= w)%N)).
  { destruct (N.eq_dec c 0%N) as [->|Hc].
    { left. exists DivisionByZero. unfold writewave. now rewrite Hopen. }
    destruct (quantization_scale w) as [scale|e|f] eqn:Hs.
    - destruct (new_quantized_input_cases (N.of_nat (length input)) w)
        as [(n & Hn)|(Hn & Hw & _)].
      + destruct (Hq scale) as [(q & Hsq)|(f & Hsq)].
        * left. exists Terminate. apply (Hchain ltac:(lia) scale n q eq_refl Hn Hsq).
        * left. exists f. unfold writewave. rewrite Hopen. cbn [negb].
          unfold udiv. destruct (N.eqb_spec c 0); [lia|]. cbn [mbind result_bind].
          rewrite Hs. cbn [mbind result_bind]. rewrite Hn. cbn [mbind result_bind].
          now rewrite Hsq.
      + right. split; [|exact (quantization_scale_wide w scale Hs Hw)].
        unfold writewave. rewrite Hopen. cbn [negb].
        unfold udiv. destruct (N.eqb_spec c 0); [lia|]. cbn [mbind result_bind].
        rewrite Hs. cbn [mbind result_bind]. now rewrite Hn.
    - unfold quantization_scale in Hs. destruct (_ <=? _)%N; discriminate.
    - left. exists f. unfold writewave. rewrite Hopen. cbn [negb].
      unfold udiv. destruct (N.eqb_spec c 0); [lia|]. cbn [mbind result_bind].
      now rewrite Hs. }
  split; [|split].
  - intros r. destruct Hcases as [(f & ->)|(-> & _)]; discriminate.
  - intros Hw. destruct Hcases as [H|(_ & Hw')]; [exact H | lia].
  - intros Hc (scale & q & Hs & Hsq).
    destruct (new_quantized_input_cases (N.of_nat (length input)) w)
      as [(n & Hn)|(Hn & Hw & HL)]; [exact (Hchain Hc scale n q Hs Hn Hsq)|].
    exfalso. destruct input as [|x input]; [now apply HL|].
    cbn [quantize_input] in Hsq. rewrite quantize_sample_of in Hsq.
    destruct (sample_of scale x) as [t| |]; cbn [mbind result_bind] in Hsq;
      try discriminate.
    destruct (N.ltb_spec 4 w); [discriminate | lia].
Qed.

Lemma X2_writewave_bad_parameter_witness :
  (forall r, writewave fs0 "a.wav" [half] 0 2 1 <> Ok r) /\
  (exists f, writewave fs0 "a.wav" [half] 0 2 1 = Fault f) /\
  writewave fs0 "a.wav" [half] 0 2 1 = Fault Terminate.
Proof.
  destruct (X2_writewave_bad_parameter_is_fatal fs0 "a.wav" [half] 0 2 1)
    as (Hret & Hfault & Hterm).
  - reflexivity.
  - right. right. reflexivity.
  - split; [exact Hret|]. split.
    + apply Hfault. reflexivity.
    + apply Hterm; [lia|].
      eexists _, _. split; [reflexivity | vm_compute; reflexivity].
Defined.

(** X3: [writewave] returns [true] exactly when the file can be opened,
    the channel count is at least 1, the sample width is from 1 to 4, the
    frame rate is positive and every input value can be quantized; the file
    then holds the [fmt ] chunk of the three parameters and, as data, the
    quantized bytes of the first [floor(L/c) * c] input values. *)
Theorem X3_writewave_success_iff (fs fs' : filesystem) (filename : string)
    (input : list float) (Fs w c : N) :
  writewave fs filename input Fs w c = Ok (true, fs') <->
  ofstream_is_open fs filename = true /\
  (1 <= c)%N /\ (1 <= w <= 4)%N /\ (0 < Fs)%N /\
  exists q, quantize_input (pow2_float (8 * Z.of_N w)) w input = Ok q /\
    fs' = store_file fs filename
            (written_file c Fs w
               (take (N.to_nat (N.of_nat (length input) / c * w * c)) q)).
Proof.
  split.
  {
    intros H. pose proof H as H0. unfold writewave in H.
    destruct (ofstream_is_open fs filename) eqn:Hopen; cbn [negb] in H; [|discriminate].
    unfold udiv in H. destruct (N.eqb_spec c 0) as [|Hc]; [discriminate|].
    cbn [mbind result_bind] in H.
    destruct (quantization_scale w) as [scale| |] eqn:Hs; cbn [mbind result_bind] in H;
      try discriminate.
    destruct (new_quantized_input (N.of_nat (length input)) w) as [n| |];
      cbn [mbind result_bind] in H; try discriminate.
    destruct (quantize_input scale w input) as [q| |] eqn:Hq; cbn [mbind result_bind] in H;
      try discriminate.
    rewrite writer_chain in H.
    destruct (N.ltb_spec c 1); [discriminate|].
    destruct (N.ltb_spec w 1); cbn [orb] in H; [discriminate|].
    destruct (N.ltb_spec 4 w); [discriminate|].
    destruct (N.leb_spec Fs 0); [discriminate|]. clear H.
    assert (Hw : (1 <= w <= 4)%N) by lia.
    rewrite (writewave_Ok fs filename input Fs w c scale q Hopen ltac:(lia) Hw ltac:(lia) Hs Hq)
      in H0.
    injection H0 as <-.
    rewrite (quantization_scale_pow2 w Hw) in Hs. injection Hs as <-.
    repeat split; try lia. exists q. split; [exact Hq | reflexivity].
  }
  intros (Hopen & Hc & Hw & HFs & q & Hq & ->).
  apply (writewave_Ok fs filename input Fs w c _ q Hopen Hc Hw HFs
           (quantization_scale_pow2 w Hw) Hq).
Qed.

Lemma X3_writewave_success_witness :
  writewave fs0 "a.wav" [half] 8000 2 1
  = Ok (true, store_file fs0 "a.wav" (written_file 1 8000 2 [x00; x40])).
Proof.
  apply (X3_writewave_success_iff fs0 _ "a.wav" [half] 8000 2 1).
  split; [reflexivity|]. split; [lia|]. split; [lia|]. split; [lia|].
  exists [x00; x40]. split; reflexivity.
Defined.

Lemma quantize_nan (scale : float) (w : N) (x : float) :
  F32.is_nan x = true -> quantize scale w x = Fault FloatToIntRange.
Proof.
  destruct x; try discriminate. intros _.
  unfold quantize. cbn [F32.ltb SFltb SFcompare F32.one F32.minus_one].
  destruct scale; reflexivity.
Qed.

Lemma quantize_Ok_or_range (scale : float) (w : N) (x : float) :
  (w <= 4)%N ->
  (exists bs, quantize scale w x = Ok bs) \/ quantize scale w x = Fault FloatToIntRange.
Proof.
  intros Hw. rewrite quantize_sample_of. unfold sample_of.
  destruct (F32.to_int32 _) as [t| |] eqn:Ht; cbn [mbind result_bind].
  - destruct (N.ltb_spec 4 w); [lia|]. left. eauto.
  - unfold F32.to_int32 in Ht.
    destruct (F32.add _ _) as [| | |s m ex]; try discriminate.
    destruct (in_int32 _); discriminate.
  - right. unfold F32.to_int32 in Ht.
    destruct (F32.add _ _) as [| | |s m ex]; try discriminate; try congruence.
    destruct (in_int32 _); congruence.
Qed.

Lemma quantize_input_nan (scale : float) (w : N) (input : list float) (x : float) :
  (w <= 4)%N -> In x input -> F32.is_nan x = true ->
  quantize_input scale w input = Fault FloatToIntRange.
Proof.
  intros Hw Hin Hnan. induction input as [|y input IH]; [contradiction|].
  cbn [quantize_input].
  destruct (quantize_Ok_or_range scale w y Hw) as [(bs & Hy)|Hy].
  - destruct Hin as [->|Hin].
    + rewrite quantize_nan in Hy by exact Hnan. discriminate.
    + rewrite Hy. cbn [mbind result_bind]. rewrite (IH Hin). reflexivity.
  - rewrite Hy. reflexivity.
Qed.

(** X4: a NaN among the input values takes [writewave] to the conversion
    [int32_t(NaN)], which is undefined: the comparisons of the clipping are
    both false for a NaN. *)
Theorem X4_writewave_nan_is_undefined (fs : filesystem) (filename : string)
    (input : list float) (Fs w c : N) (x : float) :
  ofstream_is_open fs filename = true -> (1 <= c)%N -> (w <= 4)%N ->
  In x input -> F32.is_nan x = true ->
  writewave fs filename input Fs w c = Fault FloatToIntRange.
Proof.
  intros Hopen Hc Hw Hin Hnan.
  unfold writewave. rewrite Hopen. cbn [negb].
  unfold udiv. destruct (N.eqb_spec c 0); [lia|]. cbn [mbind result_bind].
  assert (Hs : exists scale, quantization_scale w = Ok scale).
  { unfold quantization_scale. rewrite N.mod_small by (change (2 ^ 64)%N with 18446744073709551616%N; lia).
    destruct (N.leb_spec 64 (8 * w)); [lia|]. eauto. }
  destruct Hs as (scale & ->). cbn [mbind result_bind].
  rewrite new_quantized_input_small by lia. cbn [mbind result_bind].
  rewrite (quantize_input_nan scale w input x Hw Hin Hnan). reflexivity.
Qed.

Lemma X4_writewave_nan_witness :
  writewave fs0 "a.wav" [half; S754_nan] 8000 2 1 = Fault FloatToIntRange.
Proof.
  apply (X4_writewave_nan_is_undefined fs0 "a.wav" [half; S754_nan] 8000 2 1 S754_nan).
  - reflexivity.
  - lia.
  - lia.
  - right. left. reflexivity.
  - reflexivity.
Defined.

Lemma clip_out_of_range (x : float) :
  F32.ltb F32.one x = true \/ F32.ltb x F32.minus_one = true ->
  (F32.ltb F32.one x = true /\ clip x = F32.one) \/
  (F32.ltb x F32.minus_one = true /\ clip x = F32.minus_one).
Proof.
  unfold clip. intros [H|H].
  - left. rewrite H. split; reflexivity.
  - right. split; [exact H|].
    destruct (F32.ltb F32.one x) eqn:H1; [|now rewrite H].
    destruct x as [[|]|[|]| |[|] m e]; try discriminate.
Qed.

(** X5: at the widths 1 to 3 every value above 1 (infinity included) and
    every value below -1 is written with the same bytes, those of the most
    negative sample: the values below -1 because they are clipped to -1,
    the values above 1 because the sample of +1.0 wraps around. *)
Theorem X5_clipped_values_share_the_lowest_sample (w : N) (x : float) :
  (1 <= w <= 3)%N ->
  F32.ltb F32.one x = true \/ F32.ltb x F32.minus_one = true ->
  exists bytes,
    quantized w x = Ok bytes /\
    quantized w F32.one = Ok bytes /\ quantized w F32.minus_one = Ok bytes /\
    decode_sample w bytes = Ok (- full_scale w).
Proof.
  intros Hw Hx.
  assert (Hq : quantized w x = quantized w F32.one \/ quantized w x = quantized w F32.minus_one).
  { unfold quantized. destruct (quantization_scale w) as [scale| |]; cbn [mbind result_bind];
      [|now left|now left].
    rewrite !quantize_sample_of. unfold sample_of.
    destruct (clip_out_of_range x Hx) as [[_ ->]|[_ ->]]; [left | right]; reflexivity. }
  assert (Hcases : w = 1%N \/ w = 2%N \/ w = 3%N) by lia.
  destruct Hcases as [-> | [-> | ->]].
  - exists [x00]. destruct Hq as [-> | ->]; repeat split; vm_compute; reflexivity.
  - exists [x00; x80]. destruct Hq as [-> | ->]; repeat split; vm_compute; reflexivity.
  - exists [x00; x00; x80]. destruct Hq as [-> | ->]; repeat split; vm_compute; reflexivity.
Qed.

Lemma X5_clipped_values_witness :
  exists bytes,
    quantized 2 (S754_infinity false) = Ok bytes /\
    quantized 2 F32.one = Ok bytes /\ quantized 2 F32.minus_one = Ok bytes /\
    decode_sample 2 bytes = Ok (- full_scale 2).
Proof.
  apply (X5_clipped_values_share_the_lowest_sample 2 (S754_infinity false)).
  - lia.
  - left. reflexivity.
Defined.








Lemma read_fmt_chunk_throw_inv (chunk : Chunk) (self : Wave_read.t) (e : error) :
  Wave_read.read_fmt_chunk chunk self = Throw e -> e = UnsupportedFormatError.
Proof.
  unfold Wave_read.read_fmt_chunk, chunk_read.
  destruct (_ <=? _)%N; [|discriminate]. cbn [mbind result_bind].
  destruct (_ =? _)%N; [|congruence].
  destruct (_ <=? _)%N; discriminate.
Qed.

Lemma scan_throw_inv (cs : list Chunk) (i : nat) (flag : bool) (self : Wave_read.t)
    (e : error) :
  Wave_read.scan cs i flag self = Throw e -> e = UnsupportedFormatError \/ e = OrderError.
Proof.
  revert i flag self. induction cs as [|chunk cs IH]; intros i flag self H; [discriminate|].
  cbn [Wave_read.scan] in H.
  destruct (chunk_id chunk =? "fmt ")%string.
  - destruct (Wave_read.read_fmt_chunk chunk self) as [[chunk' self']| |] eqn:Hr;
      cbn [mbind result_bind] in H; [eauto| |discriminate].
    left. injection H as <-. eapply read_fmt_chunk_throw_inv, Hr.
  - destruct (chunk_id chunk =? "data")%string; [|eauto].
    destruct (negb flag); [right; congruence|].
    unfold udiv in H. destruct (_ =? _)%N; discriminate.
Qed.

(** X8: the constructor of the reader throws the format error exactly when
    the outermost chunk is not named RIFF, or it is and its first four
    payload bytes are there and are not WAVE; no later step throws it. *)
Theorem X8_format_error_iff (file : Chunk) :
  Wave_read.construct file = Throw FormatError <->
  chunk_id file <> "RIFF"%string \/
  ((4 <= length (chunk_payload file))%nat /\
   take 4 (chunk_payload file) <> bytes_of_string "WAVE").
Proof.
  unfold Wave_read.construct.
  destruct (String.eqb_spec (chunk_id file) "RIFF") as [Hid|Hid]; cbn [negb].
  2:{ split; [intros _; now left | reflexivity]. }
  unfold chunk_read.
  destruct (N.leb_spec 4 (N.of_nat (length (chunk_payload file)))) as [Hlen|Hlen];
    cbn [mbind result_bind].
  2:{ split; [discriminate|]. intros [H|[H _]]; [contradiction | lia]. }
  change (N.to_nat 4) with 4%nat.
  destruct (bool_decide_reflect (take 4 (chunk_payload file) = bytes_of_string "WAVE"))
    as [Hw|Hw]; cbn [negb].
  - split.
    + intros H. exfalso.
      destruct (Wave_read.scan _ _ _ _) as [[[a b] s]| |] eqn:Hs; cbn [mbind result_bind] in H.
      * destruct (negb a || negb b); discriminate.
      * injection H as ->. apply scan_throw_inv in Hs as [|]; discriminate.
      * discriminate.
    + intros [H|[_ H]]; contradiction.
  - split; [intros _; right; split; [lia | exact Hw] | reflexivity].
Qed.

Lemma X8_format_error_witness :
  Wave_read.construct (mkChunk "RIFX" 4 (bytes_of_string "WAVE") []) = Throw FormatError.
Proof.
  apply (X8_format_error_iff (mkChunk "RIFX" 4 (bytes_of_string "WAVE") [])).
  left. discriminate.
Defined.

Lemma scan_skip (cs rest : list Chunk) (i : nat) (flag : bool) (self : Wave_read.t) :
  Forall (fun c => chunk_id c <> "fmt "%string /\ chunk_id c <> "data"%string) cs ->
  Wave_read.scan (cs ++ rest) i flag self = Wave_read.scan rest (i + length cs) flag self.
Proof.
  intros H. revert i. induction H as [|c cs [H1 H2] _ IH]; intros i.
  - cbn [app length]. f_equal. lia.
  - cbn [app length Wave_read.scan].
    destruct (String.eqb_spec (chunk_id c) "fmt "); [contradiction|].
    destruct (String.eqb_spec (chunk_id c) "data"); [contradiction|].
    rewrite IH. f_equal. lia.
Qed.

Lemma scan_fmt_prefix (pre rest : list Chunk) (i : nat) (flag : bool) (self : Wave_read.t) :
  Forall (fun c => chunk_id c <> "data"%string /\ (chunk_id c = "fmt "%string -> pcm_fmt c))
    pre ->
  exists flag' self',
    Wave_read.scan (pre ++ rest) i flag self
    = Wave_read.scan rest (i + length pre) flag' self' /\
    drop (i + length pre) (chunk_subchunks (Wave_read.file_chunk self'))
    = drop (i + length pre) (chunk_subchunks (Wave_read.file_chunk self)).
Proof.
  intros H. revert i flag self. induction H as [|c pre [H1 H2] _ IH]; intros i flag self.
  - exists flag, self. cbn [app length]. rewrite Nat.add_0_r. split; reflexivity.
  - cbn [app length Wave_read.scan].
    replace (i + S (length pre))%nat with (S i + length pre)%nat by lia.
    destruct (String.eqb_spec (chunk_id c) "fmt ") as [Hfmt|Hfmt].
    + destruct (read_fmt_chunk_pcm c self (H2 Hfmt)) as (self1 & -> & _ & _ & _ & _ & Hfc & _).
      cbn [mbind result_bind].
      destruct (IH (S i) true
                  (Wave_read.set_file_chunk
                     (set_subchunk (Wave_read.file_chunk self1) i (after_read 16 c)) self1))
        as (flag' & self' & -> & Hdrop).
      exists flag', self'. split; [reflexivity|]. rewrite Hdrop.
      cbn [Wave_read.set_file_chunk Wave_read.file_chunk set_subchunk chunk_subchunks].
      rewrite Hfc. apply drop_insert_lt. lia.
    + destruct (String.eqb_spec (chunk_id c) "data"); [contradiction|]. apply IH.
Qed.

(** X9: a RIFF/WAVE container without a [data] chunk (whose [fmt ] chunks,
    if any, are PCM) is rejected with the missing-chunk error, and [readwave]
    leaves its output parameters as they were. *)
Theorem X9_no_data_chunk_is_missing_chunk (file : Chunk) (fs : filesystem)
    (filename : string) (output : list float) (Fs : float) :
  is_riff_wave file ->
  Forall (fun c => chunk_id c <> "data"%string /\ (chunk_id c = "fmt "%string -> pcm_fmt c))
    (chunk_subchunks file) ->
  Wave_read.construct file = Throw MissingChunkError /\
  (ifstream_open fs filename = Some file ->
   readwave fs filename output Fs = Thrown MissingChunkError output Fs).
Proof.
  intros Hrw Hsub.
  assert (Hc : Wave_read.construct file = Throw MissingChunkError).
  { rewrite construct_riff_wave by exact Hrw.
    destruct (scan_fmt_prefix (chunk_subchunks file) [] 0 false
                (Wave_read.init (after_read 4 file)) Hsub) as (flag' & self' & Hs & _).
    rewrite app_nil_r in Hs. rewrite Hs. cbn [Wave_read.scan mbind result_bind negb].
    now rewrite orb_true_r. }
  split; [exact Hc|]. intros Hopen. unfold readwave. now rewrite Hopen, Hc.
Qed.

Lemma X9_no_data_chunk_witness :
  Wave_read.construct file_fmt_only = Throw MissingChunkError /\
  (ifstream_open (mkFs {["a.wav"%string := file_fmt_only]} ∅) "a.wav" = Some file_fmt_only ->
   readwave (mkFs {["a.wav"%string := file_fmt_only]} ∅) "a.wav" [F32.one] F32.one
   = Thrown MissingChunkError [F32.one] F32.one).
Proof.
  apply (X9_no_data_chunk_is_missing_chunk file_fmt_only).
  - split; reflexivity.
  - repeat constructor; try discriminate.
    all: intros _; split; [cbn; lia | reflexivity].
Defined.

Lemma construct_well_formed (file fmt d : Chunk) (pre mid post : list Chunk) :
  is_riff_wave file ->
  chunk_subchunks file = pre ++ fmt :: mid ++ d :: post ->
  Forall (fun c => chunk_id c <> "data"%string /\ (chunk_id c = "fmt "%string -> pcm_fmt c))
    pre ->
  chunk_id fmt = "fmt "%string -> pcm_fmt fmt ->
  Forall (fun c => chunk_id c <> "fmt "%string /\ chunk_id c <> "data"%string) mid ->
  chunk_id d = "data"%string ->
  let sampwidth := ((fmt_bits fmt + 7) / 8)%N in
  let framesize := (fmt_channels fmt * sampwidth)%N in
  (framesize = 0%N -> Wave_read.construct file = Fault DivisionByZero) /\
  (framesize <> 0%N ->
   exists f, Wave_read.construct file = Ok f /\
     Wave_read.nchannels f = fmt_channels fmt /\
     Wave_read.sampwidth f = sampwidth /\
     Wave_read.framerate f = fmt_rate fmt /\
     Wave_read.framesize f = framesize /\
     Wave_read.nframes f = (chunk_size d / framesize)%N /\
     reader_data f = Some d).
Proof.
  intros Hrw Hsub Hpre Hfid Hpcm Hmid Hdid sampwidth framesize.
  rewrite construct_riff_wave by exact Hrw. rewrite Hsub.
  set (self0 := Wave_read.init (after_read 4 file)).
  destruct (scan_fmt_prefix pre (fmt :: mid ++ d :: post) 0 false self0 Hpre)
    as (flag1 & self1 & -> & Hdrop).
  cbn [Nat.add] in *. cbn [Wave_read.scan]. rewrite Hfid.
  change ("fmt " =? "fmt ")%string with true. cbv iota.
  destruct (read_fmt_chunk_pcm fmt self1 Hpcm)
    as (self2 & -> & Hsw & Hnc & Hfr & Hfs & Hfc & _).
  cbn [mbind result_bind].
  rewrite scan_skip by exact Hmid. cbn [Wave_read.scan]. rewrite Hdid.
  change ("data" =? "fmt ")%string with false. change ("data" =? "data")%string with true.
  cbv iota. cbn [negb Wave_read.set_file_chunk Wave_read.framesize].
  assert (Hfs' : Wave_read.framesize self2 = framesize).
  { rewrite Hfs, Hnc, Hsw. reflexivity. }
  rewrite Hfs'. unfold udiv. split.
  - intros ->. reflexivity.
  - intros Hnz. destruct (N.eqb_spec framesize 0); [contradiction|].
    cbn [mbind result_bind negb orb]. eexists. split; [reflexivity|].
    cbn [Wave_read.nchannels Wave_read.sampwidth Wave_read.framerate Wave_read.framesize
         Wave_read.nframes].
    repeat split; try assumption.
    unfold reader_data.
    cbn [Wave_read.data_chunk]. rewrite Hfc.
    cbn [Wave_read.set_file_chunk Wave_read.file_chunk set_subchunk chunk_subchunks].
    rewrite list_lookup_insert_ne by lia.
    replace (S (length pre) + length mid)%nat with (length pre + S (length mid))%nat by lia.
    rewrite <- lookup_drop, Hdrop. unfold self0.
    cbn [Wave_read.init Wave_read.file_chunk after_read chunk_subchunks].
    rewrite Hsub, drop_app_length.
    change ((fmt :: mid ++ d :: post) !! S (length mid))
      with ((mid ++ d :: post) !! length mid).
    now apply list_lookup_middle.
Qed.

(** X10: on a RIFF/WAVE container the constructor takes the format from the
    last PCM [fmt ] chunk before the first [data] chunk and the frames from
    that [data] chunk; chunks with other names are skipped and nothing after
    the first [data] chunk is looked at.  Of the [fmt ] payload only the
    channel count, the frame rate and the bits per sample are used. *)
Theorem X10_constructor_uses_last_fmt_and_first_data (file fmt d : Chunk)
    (pre mid post : list Chunk) :
  is_riff_wave file ->
  chunk_subchunks file = pre ++ fmt :: mid ++ d :: post ->
  Forall (fun c => chunk_id c <> "data"%string /\ (chunk_id c = "fmt "%string -> pcm_fmt c))
    pre ->
  chunk_id fmt = "fmt "%string -> pcm_fmt fmt ->
  Forall (fun c => chunk_id c <> "fmt "%string /\ chunk_id c <> "data"%string) mid ->
  chunk_id d = "data"%string ->
  fmt_channels fmt <> 0%N -> fmt_bits fmt <> 0%N ->
  exists f, Wave_read.construct file = Ok f /\
    Wave_read.nchannels f = fmt_channels fmt /\
    Wave_read.sampwidth f = ((fmt_bits fmt + 7) / 8)%N /\
    Wave_read.framerate f = fmt_rate fmt /\
    Wave_read.framesize f = (fmt_channels fmt * ((fmt_bits fmt + 7) / 8))%N /\
    Wave_read.nframes f = (chunk_size d / (fmt_channels fmt * ((fmt_bits fmt + 7) / 8)))%N /\
    reader_data f = Some d.
Proof.
  intros Hrw Hsub Hpre Hfid Hpcm Hmid Hdid Hch Hbits.
  apply (construct_well_formed file fmt d pre mid post Hrw Hsub Hpre Hfid Hpcm Hmid Hdid).
  assert (1 <= (fmt_bits fmt + 7) / 8)%N by (apply N.div_le_lower_bound; lia).
  lia.
Qed.

Lemma X10_constructor_witness :
  exists f, Wave_read.construct file_with_extras = Ok f /\
    Wave_read.nchannels f = 1%N /\ Wave_read.sampwidth f = 2%N /\
    Wave_read.framerate f = 8000%N /\ Wave_read.framesize f = 2%N /\
    Wave_read.nframes f = 2%N /\
    reader_data f = Some (mkChunk "data" 4 [x00; x40; x00; xc0] []).
Proof.
  apply (X10_constructor_uses_last_fmt_and_first_data file_with_extras
           (mkChunk "fmt " 16 pcm_header_mono16 [])
           (mkChunk "data" 4 [x00; x40; x00; xc0] [])
           [mkChunk "LIST" 0 [] []] [mkChunk "fact" 0 [] []]
           [mkChunk "fmt " 16 adpcm_header []]).
  - split; reflexivity.
  - reflexivity.
  - repeat constructor; discriminate.
  - reflexivity.
  - split; [cbn; lia | reflexivity].
  - repeat constructor; discriminate.
  - reflexivity.
  - discriminate.
  - discriminate.
Defined.

(** X11: a PCM [fmt ] chunk with 0 channels or 0 bits per sample is
    accepted, and the frame count [chunk.size / framesize] of the [data]
    chunk that follows is a division by zero. *)
Theorem X11_zero_frame_size_divides_by_zero (file fmt d : Chunk)
    (pre mid post : list Chunk) (fs : filesystem) (filename : string)
    (output : list float) (Fs : float) :
  is_riff_wave file ->
  chunk_subchunks file = pre ++ fmt :: mid ++ d :: post ->
  Forall (fun c => chunk_id c <> "data"%string /\ (chunk_id c = "fmt "%string -> pcm_fmt c))
    pre ->
  chunk_id fmt = "fmt "%string -> pcm_fmt fmt ->
  Forall (fun c => chunk_id c <> "fmt "%string /\ chunk_id c <> "data"%string) mid ->
  chunk_id d = "data"%string ->
  fmt_channels fmt = 0%N \/ fmt_bits fmt = 0%N ->
  Wave_read.construct file = Fault DivisionByZero /\
  (ifstream_open fs filename = Some file ->
   readwave fs filename output Fs = Stopped DivisionByZero).
Proof.
  intros Hrw Hsub Hpre Hfid Hpcm Hmid Hdid Hz.
  assert (Hc : Wave_read.construct file = Fault DivisionByZero).
  { apply (construct_well_formed file fmt d pre mid post Hrw Hsub Hpre Hfid Hpcm Hmid Hdid).
    destruct Hz as [-> | ->]; [reflexivity|]. apply N.mul_0_r. }
  split; [exact Hc|]. intros Hopen. unfold readwave. now rewrite Hopen, Hc.
Qed.

Lemma X11_zero_frame_size_witness :
  Wave_read.construct file_no_channels = Fault DivisionByZero /\
  (ifstream_open (mkFs {["a.wav"%string := file_no_channels]} ∅) "a.wav"
   = Some file_no_channels ->
   readwave (mkFs {["a.wav"%string := file_no_channels]} ∅) "a.wav" [] F32.zero
   = Stopped DivisionByZero).
Proof.
  apply (X11_zero_frame_size_divides_by_zero file_no_channels
           (mkChunk "fmt " 16 pcm_header_no_channels [])
           (mkChunk "data" 2 [x00; x40] []) [] [] []).
  - split; reflexivity.
  - reflexivity.
  - constructor.
  - reflexivity.
  - split; [cbn; lia | reflexivity].
  - constructor.
  - reflexivity.
  - left. reflexivity.
Defined.

Lemma ensure_header_written_fresh (self : Wave_write.t) :
  Wave_write.headerwritten self = false ->
  Wave_write.nchannels self <> 0%N -> Wave_write.sampwidth self <> 0%N ->
  Wave_write.framerate self <> 0%N ->
  let subs := chunk_subchunks (Wave_write.file_chunk self) in
  exists fc,
    Wave_write._ensure_header_written self
    = Ok (Wave_write.mk true fc (Some (S (length subs))) (Wave_write.nframes self)
            (Wave_write.nchannels self) (Wave_write.framerate self)
            (Wave_write.sampwidth self) (Wave_write.comptype self)
            (Wave_write.compname self)) /\
    chunk_subchunks fc
    = subs ++ [mkChunk "fmt " 16 (Wave_write.fmt_bytes self) []; mkChunk "data" 0 [] []].
Proof.
  intros Hh Hc Hw HFs subs. unfold Wave_write._ensure_header_written.
  rewrite Hh. cbn [negb].
  destruct (N.eqb_spec (Wave_write.nchannels self) 0); [contradiction|].
  destruct (N.eqb_spec (Wave_write.sampwidth self) 0); [contradiction|].
  destruct (N.eqb_spec (Wave_write.framerate self) 0); [contradiction|].
  cbn [addSubchunk set_subchunk chunk_subchunks chunk_id chunk_size chunk_payload
       chunk_write new_chunk app]. fold subs.
  eexists. split.
  - f_equal. f_equal. f_equal. rewrite length_insert, length_app. cbn [length]. lia.
  - cbn [chunk_subchunks].
    rewrite insert_app_r_alt by lia. rewrite Nat.sub_diag. cbn [insert list_insert].
    rewrite <- app_assoc. reflexivity.
Qed.

(** X12: the first [writeframes] writes the header, and the frames of two
    calls are appended to the same [data] chunk: two calls leave the object
    that one call with the concatenated frames leaves, with the [fmt ] chunk
    once and one [data] chunk. *)
Theorem X12_writeframes_appends (self : Wave_write.t) (d1 d2 : list byte) (n1 n2 : N) :
  Wave_write.headerwritten self = false ->
  Wave_write.nchannels self <> 0%N -> Wave_write.sampwidth self <> 0%N ->
  Wave_write.framerate self <> 0%N ->
  let F := (Wave_write.sampwidth self * Wave_write.nchannels self)%N in
  (n1 * F <= N.of_nat (length d1))%N -> (n2 * F <= N.of_nat (length d2))%N ->
  (self1 ← Wave_write.writeframes d1 n1 self; Wave_write.writeframes d2 n2 self1)
  = Wave_write.writeframes (take (N.to_nat (n1 * F)) d1 ++ take (N.to_nat (n2 * F)) d2)
      (n1 + n2) self /\
  exists self2,
    Wave_write.writeframes (take (N.to_nat (n1 * F)) d1 ++ take (N.to_nat (n2 * F)) d2)
      (n1 + n2) self = Ok self2 /\
    chunk_subchunks (Wave_write.file_chunk self2)
    = chunk_subchunks (Wave_write.file_chunk self)
      ++ [mkChunk "fmt " 16 (Wave_write.fmt_bytes self) [];
          mkChunk "data" ((n1 + n2) * F)
            (take (N.to_nat (n1 * F)) d1 ++ take (N.to_nat (n2 * F)) d2) []].
Proof.
  intros Hh Hc Hw HFs F H1 H2.
  destruct (ensure_header_written_fresh self Hh Hc Hw HFs) as (fc & He & Hsubs).
  cbv zeta in He, Hsubs. set (subs := chunk_subchunks (Wave_write.file_chunk self)) in *.
  set (b1 := N.to_nat (n1 * F)). set (b2 := N.to_nat (n2 * F)).
  assert (Hl1 : length (take b1 d1) = b1) by (apply length_take_le; lia).
  assert (Hl2 : length (take b2 d2) = b2) by (apply length_take_le; lia).
  assert (Hlook : chunk_subchunks fc !! S (length subs) = Some (mkChunk "data" 0 [] [])).
  { rewrite Hsubs. rewrite lookup_app_r by lia.
    replace (S (length subs) - length subs)%nat with 1%nat by lia. reflexivity. }
  assert (Hins : forall c, <[S (length subs) := c]> (chunk_subchunks fc)
                 = subs ++ [mkChunk "fmt " 16 (Wave_write.fmt_bytes self) []; c]).
  { intros c. rewrite Hsubs. rewrite insert_app_r_alt by lia.
    replace (S (length subs) - length subs)%nat with 1%nat by lia. reflexivity. }
  assert (Hone : forall d n, (n * F <= N.of_nat (length d))%N ->
    Wave_write.writeframes d n self
    = Ok (Wave_write.mk true
            (set_subchunk fc (S (length subs))
               (mkChunk "data" (n * F) (take (N.to_nat (n * F)) d) []))
            (Some (S (length subs))) (Wave_write.nframes self)
            (Wave_write.nchannels self) (Wave_write.framerate self)
            (Wave_write.sampwidth self) (Wave_write.comptype self)
            (Wave_write.compname self))).
  { intros d n Hn. unfold Wave_write.writeframes. rewrite He. cbn [mbind result_bind].
    cbn [Wave_write.data_chunk Wave_write.file_chunk Wave_write.sampwidth
         Wave_write.nchannels Wave_write.headerwritten Wave_write.nframes
         Wave_write.framerate Wave_write.comptype Wave_write.compname].
    rewrite Hlook.
    replace (n * Wave_write.sampwidth self * Wave_write.nchannels self)%N
      with (n * F)%N by (unfold F; lia).
    destruct (N.leb_spec (n * F) (N.of_nat (length d))); [|lia].
    do 2 f_equal. f_equal. unfold chunk_write.
    cbn [chunk_id chunk_size chunk_payload chunk_subchunks app].
    f_equal. rewrite length_take_le by lia. lia. }
  assert (Hsingle :
    Wave_write.writeframes (take b1 d1 ++ take b2 d2) (n1 + n2) self
    = Ok (Wave_write.mk true
            (set_subchunk fc (S (length subs))
               (mkChunk "data" ((n1 + n2) * F) (take b1 d1 ++ take b2 d2) []))
            (Some (S (length subs))) (Wave_write.nframes self)
            (Wave_write.nchannels self) (Wave_write.framerate self)
            (Wave_write.sampwidth self) (Wave_write.comptype self)
            (Wave_write.compname self))).
  { rewrite Hone by (rewrite length_app, Hl1, Hl2; lia).
    rewrite take_ge by (rewrite length_app, Hl1, Hl2; lia). reflexivity. }
  split.
  - rewrite Hsingle, (Hone d1 n1 H1). cbn [mbind result_bind].
    unfold Wave_write.writeframes, Wave_write._ensure_header_written.
    cbn [Wave_write.headerwritten negb mbind result_bind Wave_write.data_chunk
         Wave_write.file_chunk Wave_write.sampwidth Wave_write.nchannels
         Wave_write.nframes Wave_write.framerate Wave_write.comptype Wave_write.compname
         set_subchunk chunk_subchunks].
    rewrite list_lookup_insert_eq by (rewrite Hsubs, length_app; cbn [length]; lia).
    replace (n2 * Wave_write.sampwidth self * Wave_write.nchannels self)%N
      with (n2 * F)%N by (unfold F; lia).
    destruct (N.leb_spec (n2 * F) (N.of_nat (length d2))); [|lia].
    f_equal. f_equal. unfold set_subchunk.
    cbn [chunk_id chunk_size chunk_payload chunk_subchunks].
    rewrite list_insert_insert_eq. do 2 f_equal. unfold chunk_write.
    cbn [chunk_id chunk_size chunk_payload chunk_subchunks app].
    fold b1 b2. f_equal. rewrite Hl2. lia.
  - eexists. split; [exact Hsingle|].
    cbn [Wave_write.file_chunk set_subchunk chunk_subchunks]. apply Hins.
Qed.

Lemma X12_writeframes_witness :
  (self1 ← Wave_write.writeframes [x01; x02; x03] 1 writer_mono16;
   Wave_write.writeframes [x04; x05] 1 self1)
  = Wave_write.writeframes [x01; x02; x04; x05] 2 writer_mono16 /\
  exists self2,
    Wave_write.writeframes [x01; x02; x04; x05] 2 writer_mono16 = Ok self2 /\
    chunk_subchunks (Wave_write.file_chunk self2)
    = [mkChunk "fmt " 16 (Wave_write.fmt_bytes writer_mono16) [];
       mkChunk "data" 4 [x01; x02; x04; x05] []].
Proof.
  apply (X12_writeframes_appends writer_mono16 [x01; x02; x03] [x04; x05] 1 1).
  - reflexivity.
  - discriminate.
  - discriminate.
  - discriminate.
  - vm_compute. discriminate.
  - vm_compute. discriminate.
Defined.

Lemma for_from_no_throw {S : Type} (body : nat -> S -> result S) (n start : nat) (s : S)
    (e : error) :
  (forall i s, body i s <> Throw e) -> for_from start n body s <> Throw e.
Proof.
  intros Hb. revert start s. induction n as [|n IH]; intros start s; [discriminate|].
  rewrite for_from_S. pose proof (Hb start s) as H.
  destruct (body start s) as [s'| |]; cbn [mbind result_bind];
    [apply IH | congruence | discriminate].
Qed.

Lemma decode_frame_no_throw (w c : N) (scale : float) (readbuf : list byte) (e : error) :
  decode_frame w c scale readbuf <> Throw e.
Proof.
  unfold decode_frame, for_loop. apply for_from_no_throw. intros j acc.
  unfold decode_sample. destruct (4 <? w)%N; discriminate.
Qed.

Lemma decode_frames_body_no_throw (w c : N) (scale : float) (i : nat)
    (state : Wave_read.t * list float) (e : error) :
  decode_frames_body w c scale i state <> Throw e.
Proof.
  destruct state as [f out]. unfold decode_frames_body, Wave_read.readframes.
  destruct (Wave_read.data_chunk f) as [k|]; [|discriminate].
  destruct (_ !! k) as [chunk|]; [|discriminate].
  unfold chunk_read. destruct (_ <=? _)%N; [|discriminate]. cbn [mbind result_bind].
  pose proof (decode_frame_no_throw w c scale
                (take (N.to_nat (1 * Wave_read.framesize f)) (chunk_payload chunk)) e) as H.
  destruct (decode_frame _ _ _ _) as [v| |]; cbn [mbind result_bind];
    [discriminate | congruence | discriminate].
Qed.

Lemma decode_frames_body_eq (w c : N) (scale : float) (i : nat) (f : Wave_read.t)
    (out : list float) :
  decode_frames_body w c scale i (f, out)
  = ('(readbuf, f1) ← Wave_read.readframes 1 f;
     acc ← decode_frame w c scale readbuf;
     Ok (f1, <[i := acc]> out)).
Proof. reflexivity. Qed.

Lemma decode_loop_overwrites (w c : N) (scale : float) (n start : nat) (f : Wave_read.t)
    (o1 o2 : list float) :
  length o1 = (start + n)%nat -> length o2 = (start + n)%nat ->
  take start o1 = take start o2 ->
  for_from start n (decode_frames_body w c scale) (f, o1)
  = for_from start n (decode_frames_body w c scale) (f, o2).
Proof.
  revert start f o1 o2. induction n as [|n IH]; intros start f o1 o2 H1 H2 Ht.
  - cbn [for_from]. rewrite <- (take_ge o1 start), <- (take_ge o2 start) by lia.
    now rewrite Ht.
  - rewrite !for_from_S, !decode_frames_body_eq.
    destruct (Wave_read.readframes 1 f) as [[readbuf f1]| |]; cbn [mbind result_bind];
      [|reflexivity|reflexivity].
    destruct (decode_frame w c scale readbuf) as [acc| |]; cbn [mbind result_bind];
      [|reflexivity|reflexivity].
    apply IH.
    + rewrite length_insert. lia.
    + rewrite length_insert. lia.
    + rewrite (take_S_r _ _ acc) by (apply list_lookup_insert_eq; lia).
      rewrite (take_S_r (<[start:=acc]> o2) _ acc) by (apply list_lookup_insert_eq; lia).
      rewrite !take_insert_ge by lia. now rewrite Ht.
Qed.

(** X13: what [readwave] returns does not depend on what [output] and [Fs]
    held before the call; when the constructor throws, both are left as they
    were. *)
Theorem X13_readwave_ignores_previous_contents (fs : filesystem) (filename : string)
    (output1 output2 : list float) (Fs1 Fs2 : float) :
  match readwave fs filename output1 Fs1 with
  | Returned b output Fs => readwave fs filename output2 Fs2 = Returned b output Fs
  | Thrown e output Fs =>
      output = output1 /\ Fs = Fs1 /\
      readwave fs filename output2 Fs2 = Thrown e output2 Fs2
  | Stopped f => readwave fs filename output2 Fs2 = Stopped f
  end.
Proof.
  unfold readwave. destruct (ifstream_open fs filename) as [file|]; [|reflexivity].
  destruct (Wave_read.construct file) as [f| |]; [|repeat split|reflexivity].
  assert (H : decode_frames f (resize (N.to_nat (Wave_read.nframes f)) F32.zero output1)
              = decode_frames f (resize (N.to_nat (Wave_read.nframes f)) F32.zero output2)).
  { unfold decode_frames, for_loop. apply decode_loop_overwrites.
    - apply length_resize.
    - apply length_resize.
    - reflexivity. }
  rewrite <- H.
  destruct (decode_frames f _) as [[f' out]| |] eqn:Hd; [reflexivity| |reflexivity].
  exfalso. unfold decode_frames, for_loop in Hd. revert Hd.
  apply for_from_no_throw. intros i s. apply decode_frames_body_no_throw.
Qed.

Lemma X13_readwave_ignores_witness :
  readwave (mkFs {["a.wav"%string := file_odd]} ∅) "a.wav" [F32.one; F32.one; F32.one] F32.one
  = readwave (mkFs {["a.wav"%string := file_odd]} ∅) "a.wav" [] F32.zero.
Proof.
  pose proof (X13_readwave_ignores_previous_contents
                (mkFs {["a.wav"%string := file_odd]} ∅) "a.wav"
                [] [F32.one; F32.one; F32.one] F32.zero F32.one) as H.
  exact H.
Defined.

Lemma byte_of_Z_to_N_id (b : byte) (r : Z) : byte_of_Z (Z.of_N (Byte.to_N b) + 256 * r) = b.
Proof.
  unfold byte_of_Z.
  pose proof (Byte.to_N_bounded b) as Hb.
  replace ((Z.of_N (Byte.to_N b) + 256 * r) mod 256) with (Z.of_N (Byte.to_N b)).
  - rewrite N2Z.id, Byte.of_to_N. reflexivity.
  - rewrite (Z.mul_comm 256 r), Z.mod_add by lia. symmetry. apply Z.mod_small. lia.
Qed.

Lemma le_bytes_le_value (bs : list byte) :
  le_bytes (length bs) (Z.of_N (le_value bs)) = bs.
Proof.
  induction bs as [|b bs IH]; [reflexivity|].
  cbn [length le_bytes le_value]. rewrite N2Z.inj_add, N2Z.inj_mul.
  change (Z.of_N 256) with 256. rewrite byte_of_Z_to_N_id. f_equal.
  pose proof (Byte.to_N_bounded b) as Hb.
  replace ((Z.of_N (Byte.to_N b) + 256 * Z.of_N (le_value bs)) / 256)
    with (Z.of_N (le_value bs)); [exact IH|].
  rewrite (Z.mul_comm 256), Z.div_add by lia.
  rewrite (Z.div_small (Z.of_N (Byte.to_N b))) by lia. lia.
Qed.

Lemma le_bytes_shift (n : nat) (v k : Z) :
  le_bytes n (v + k * 256 ^ Z.of_nat n) = le_bytes n v.
Proof.
  revert v k. induction n as [|n IH]; intros v k; [reflexivity|].
  cbn [le_bytes]. rewrite Nat2Z.inj_succ, Z.pow_succ_r by lia.
  f_equal.
  - unfold byte_of_Z.
    replace (v + k * (256 * 256 ^ Z.of_nat n)) with (v + (k * 256 ^ Z.of_nat n) * 256) by lia.
    rewrite Z.mod_add by lia. reflexivity.
  - replace (v + k * (256 * 256 ^ Z.of_nat n)) with (v + (k * 256 ^ Z.of_nat n) * 256) by lia.
    rewrite Z.div_add by lia. apply IH.
Qed.

Lemma sample_bytes_signed (w : N) (frame : list byte) :
  (1 <= w <= 4)%N -> length frame = N.to_nat w ->
  sample_bytes w (signed_sample w frame) = frame.
Proof.
  intros Hw Hlen. unfold sample_bytes, signed_sample. rewrite <- Hlen.
  destruct (N.eqb_spec w 1) as [->|Hw1].
  - replace (Z.of_N (le_value frame) - 128 + 128) with (Z.of_N (le_value frame)) by lia.
    apply le_bytes_le_value.
  - destruct (Z.ltb_spec (Z.of_N (le_value frame)) (full_scale w)); [apply le_bytes_le_value|].
    replace (Z.of_N (le_value frame) - 2 * full_scale w)
      with (Z.of_N (le_value frame) + (-1) * 256 ^ Z.of_nat (length frame)).
    + rewrite le_bytes_shift. apply le_bytes_le_value.
    + rewrite Hlen, N_nat_Z. unfold full_scale.
      destruct (width_cases w Hw) as [-> | [-> | [-> | ->]]]; reflexivity.
Qed.

(** X14: at the widths 1 to 3 the quantization inverts the decoding: the
    float whose value is the decoded sample of a frame divided by
    [2^(8w-1)] is written with the bytes of that frame. *)
Theorem X14_quantize_inverts_decode (w : N) (frame : list byte) (x : float) :
  (1 <= w <= 3)%N -> length frame = N.to_nat w ->
  F32.valid x = true -> is_finite x = true ->
  units x * full_scale w = signed_sample w frame * unit_one ->
  decode_sample w frame = Ok (signed_sample w frame) /\
  quantized w x = Ok frame.
Proof.
  intros Hw Hlen Hv Hf Hx.
  destruct (decode_sample_signed w frame ltac:(lia) Hlen) as (Hd & Hr).
  split; [exact Hd|].
  destruct (full_scale_bounds w Hw) as ((HH & _) & H2H & HDH).
  set (s := signed_sample w frame) in *. set (H := full_scale w) in *.
  set (D := 2 ^ (150 - 8 * Z.of_N w)) in *.
  pose proof unit_one_pos as HU.
  assert (HD : 0 < D) by (apply Z.pow_pos_nonneg; lia).
  assert (HX : units x = s * D).
  { apply (Z.mul_cancel_r _ _ H); [lia|]. rewrite Hx, <- HDH. lia. }
  destruct (sample_of_bound w x Hw Hv Hf) as (q & Hq & Hb & _).
  { rewrite HX, <- HDH. fold D. split; nia. }
  assert (Hqs : q = s).
  { rewrite <- H2H, HX in Hb. 
    assert (E : s * D * (2 * H) = 2 * s * unit_one) by (rewrite <- HDH; lia).
    rewrite E in Hb. clear - Hb HU.
    assert (- unit_one < 2 * (q - s) * unit_one < 2 * unit_one) by lia.
    nia. }
  unfold quantized. rewrite (quantization_scale_pow2 w) by lia. cbn [mbind result_bind].
  rewrite quantize_sample_of, Hq. cbn [mbind result_bind].
  destruct (N.ltb_spec 4 w); [lia|]. rewrite Hqs. f_equal.
  apply sample_bytes_signed; [lia | exact Hlen].
Qed.

Lemma X14_quantize_inverts_witness :
  decode_sample 2 [x00; x40] = Ok (signed_sample 2 [x00; x40]) /\
  quantized 2 half = Ok [x00; x40].
Proof.
  apply (X14_quantize_inverts_decode 2 [x00; x40] half).
  - lia.
  - reflexivity.
  - reflexivity.
  - reflexivity.
  - reflexivity.
Defined.


(** X15: the constructor accepts more than 32 bits per sample; with at
    least one frame, [readwave] then copies more than four bytes into the
    [int32_t] sample; with no frame it returns [true] and an empty output. *)
Theorem X15_wide_samples_overrun_the_sample (file : Chunk) (f : Wave_read.t) (c : Chunk)
    (fs : filesystem) (filename : string) (output : list float) (Fs : float) :
  Wave_read.construct file = Ok f ->
  reader_data f = Some c -> length (chunk_payload c) = N.to_nat (chunk_size c) ->
  (4 < Wave_read.sampwidth f)%N ->
  ifstream_open fs filename = Some file ->
  (Wave_read.nframes f <> 0%N -> readwave fs filename output Fs = Stopped BufferOverrun) /\
  (Wave_read.nframes f = 0%N ->
   readwave fs filename output Fs
   = Returned true [] (F32.of_Z (Z.of_N (Wave_read.framerate f)))).
Proof.
  intros Hcons Hrd Hlen Hw Hopen.
  destruct (construct_Ok_inv file f Hcons) as (c' & Hrd' & _ & Hfz & Hnf' & Hfs).
  rewrite Hrd in Hrd'. injection Hrd' as <-.
  unfold readwave. rewrite Hopen, Hcons. split.
  2:{ intros H0. unfold decode_frames, for_loop. rewrite H0.
      change (N.to_nat 0) with 0%nat. rewrite resize_0. reflexivity. }
  intros Hnf.
  assert (Hch : Wave_read.nchannels f <> 0%N) by (intros E; rewrite E in Hfs; lia).
  assert (Hsize : (Wave_read.framesize f <= chunk_size c)%N).
  { destruct (N.le_gt_cases (Wave_read.framesize f) (chunk_size c)) as [|Hlt]; [assumption|].
    rewrite N.div_small in Hnf' by exact Hlt. contradiction. }
  unfold decode_frames, for_loop.
  destruct (N.to_nat (Wave_read.nframes f)) as [|n] eqn:Hn; [lia|].
  rewrite for_from_S, decode_frames_body_eq.
  destruct (Wave_read.readframes 1 f) as [[readbuf f1]| |] eqn:Hread.
  - cbn [mbind result_bind]. unfold decode_frame, for_loop.
    destruct (N.to_nat (Wave_read.nchannels f)) as [|k] eqn:Hk; [lia|].
    rewrite for_from_S. unfold decode_sample.
    destruct (N.ltb_spec 4 (Wave_read.sampwidth f)); [reflexivity | lia].
  - exfalso. unfold Wave_read.readframes, reader_data in *.
    destruct (Wave_read.data_chunk f) as [i|]; [|discriminate].
    rewrite Hrd in Hread. unfold chunk_read in Hread.
    destruct (_ <=? _)%N; discriminate.
  - exfalso. unfold Wave_read.readframes, reader_data in *.
    destruct (Wave_read.data_chunk f) as [i|]; [|discriminate].
    rewrite Hrd in Hread. unfold chunk_read in Hread.
    destruct (N.leb_spec (1 * Wave_read.framesize f) (N.of_nat (length (chunk_payload c))));
      [discriminate | lia].
Qed.

Lemma X15_wide_samples_witness :
  (Wave_read.nframes (match Wave_read.construct file_mono40 with
                      | Ok f => f | _ => Wave_read.init file_mono40 end) <> 0%N ->
   readwave (mkFs {["a.wav"%string := file_mono40]} ∅) "a.wav" [] F32.zero
   = Stopped BufferOverrun) /\
  (Wave_read.nframes (match Wave_read.construct file_mono40 with
                      | Ok f => f | _ => Wave_read.init file_mono40 end) = 0%N ->
   readwave (mkFs {["a.wav"%string := file_mono40]} ∅) "a.wav" [] F32.zero
   = Returned true []
       (F32.of_Z (Z.of_N (Wave_read.framerate
          (match Wave_read.construct file_mono40 with
           | Ok f => f | _ => Wave_read.init file_mono40 end))))).
Proof.
  apply (X15_wide_samples_overrun_the_sample file_mono40
           (match Wave_read.construct file_mono40 with
            | Ok f => f | _ => Wave_read.init file_mono40 end)
           (mkChunk "data" 5 [x00; x00; x00; x00; x00] [])).
  - reflexivity.
  - reflexivity.
  - reflexivity.
  - reflexivity.
  - reflexivity.
Defined.

Lemma mul_half_spec (s : bool) (m : positive) (e : Z) :
  bounded F32.prec F32.emax m e = true -> -149 < e ->
  exists m2 e2,
    F32.mul (S754_finite s m e) half = S754_finite s m2 e2 /\
    bounded F32.prec F32.emax m2 e2 = true /\
    2 * units (S754_finite s m2 e2) = units (S754_finite s m e).
Proof.
  intros Hb He. pose proof (bounded_inv m e Hb) as (Hfe & Hr & Hd & Hcan).
  assert (Hd24 : Zpos (digits2_pos m) = 24) by lia.
  unfold F32.mul, half, SFmul. rewrite xorb_false_r.
  change F32.prec with 24. change F32.emax with 128.
  assert (Hm : Zpos (m * 8388608) = Zpos m * 2 ^ 23) by (rewrite Pos2Z.inj_mul; reflexivity).
  pose proof (digits2_pos_shift m (m * 8388608) 23 ltac:(lia) Hm) as Hdig.
  pose proof (binary_round_aux_spec s (m * 8388608) (e + -24)) as H. cbn zeta in H.
  rewrite Hdig, Hd24 in H.
  replace (24 + 23 + (e + -24)) with (e + 23) in H by lia.
  rewrite fexp32_eq in H.
  replace (Z.max (e + 23 - 24) (-149)) with (e - 1) in H by lia.
  replace (e - 1 - (e + -24)) with 23 in H by lia.
  destruct H as (m1 & _ & Hex & Hu & Hv & _ & Hpos); [lia | lia | lia |].
  rewrite Hm, Z.mod_mul, Z.div_mul in Hex by (apply Z.pow_nonzero; lia).
  specialize (Hex eq_refl). subst m1.
  destruct (Hpos ltac:(lia)) as (m2 & e2 & Hr2). rewrite Hr2 in *.
  exists m2, e2. split; [reflexivity|]. split; [exact Hv|].
  rewrite Hu. cbn [units].
  replace (e + 149) with (e - 1 + 149 + 1) by lia.
  rewrite (Z.pow_add_r 2 (e - 1 + 149) 1) by lia.
  change (2 ^ 1) with 2. generalize (2 ^ (e - 1 + 149)). intros P.
  destruct s; cbn [cond_Zopp]; lia.
Qed.

Lemma add_same_spec (s : bool) (m : positive) (e k : Z) :
  bounded F32.prec F32.emax m e = true ->
  Z.abs k < 2 ^ 24 ->
  2 * units (S754_finite s m e) = k * 2 ^ 149 ->
  let r := F32.add (S754_finite s m e) (S754_finite s m e) in
  F32.valid r = true /\ is_finite r = true /\ units r = k * 2 ^ 149.
Proof.
  intros Hb Hk Hu. pose proof (bounded_inv m e Hb) as (_ & Hr & _).
  unfold F32.add, SFadd. change F32.prec with 24. change F32.emax with 128.
  rewrite Z.min_id.
  destruct (shl_align_le m e e ltac:(lia)) as (m' & -> & Hm').
  rewrite Z.sub_diag, Z.mul_1_r in Hm'. injection Hm' as ->.
  cbn [fst].
  assert (HU : 0 < 2 ^ 149) by (apply Z.pow_pos_nonneg; lia).
  assert (HP : 0 < 2 ^ (e + 149)) by (apply Z.pow_pos_nonneg; lia).
  assert (HV : cond_Zopp s (Zpos (m + m) * 2 ^ (e + 149)) = k * 2 ^ 149).
  { rewrite <- Hu. cbn [units]. rewrite Pos2Z.inj_add. destruct s; cbn [cond_Zopp]; lia. }
  assert (HM : Zpos (m + m) * 2 ^ (e + 149) <= 2 ^ (101 + 149)).
  { assert (Habs : Zpos (m + m) * 2 ^ (e + 149) = Z.abs k * 2 ^ 149).
    { destruct s; cbn [cond_Zopp] in HV; lia. }
    rewrite Habs, (Z.pow_add_r 2 101 149) by lia.
    assert (2 ^ 24 <= 2 ^ 101) by (apply Z.pow_le_mono_r; lia).
    apply Z.mul_le_mono_nonneg_r; lia. }
  pose proof (round_signed s (m + m) e ltac:(lia) HM) as H. cbv zeta in H.
  rewrite HV in H. destruct H as (Hv & Hf & _ & Hmono).
  destruct (Hmono k Hk) as [H1 H2].
  specialize (H1 (Z.le_refl _)). specialize (H2 (Z.le_refl _)).
  assert (Hr' : binary_normalize 24 128
                  (cond_Zopp s (Zpos m) + cond_Zopp s (Zpos m)) e false
                = binary_round 24 128 s (m + m) e).
  { destruct s; reflexivity. }
  cbv zeta. rewrite Hr'. repeat split; try assumption. lia.
Qed.

(** The accumulation of a frame of two channels that hold the same sample. *)
Lemma downmix_equal_channels (z : Z) :
  Z.abs z < 2 ^ 24 ->
  F32.add (F32.add F32.zero (F32.mul (F32.of_Z z) half)) (F32.mul (F32.of_Z z) half)
  = F32.of_Z z.
Proof.
  intros Hz. destruct (Z.eq_dec z 0) as [->|Hnz]; [reflexivity|].
  destruct (of_Z_spec z Hz) as (Hu & _ & _).
  destruct (of_Z_finite z Hnz) as (s & m & e & Hof & Hb).
  { assert (2 ^ 24 < 2 ^ 100) by (apply Z.pow_lt_mono_r; lia). lia. }
  rewrite Hof in *.
  pose proof (bounded_inv m e Hb) as (Hfe & Hr & Hd & Hcan).
  assert (He : -149 < e).
  { destruct (Z.eq_dec e (-149)) as [->|]; [exfalso | lia].
    pose proof (digits2_pos_bounds m) as Hdig.
    assert (Zpos m < 2 ^ 24).
    { eapply Z.lt_le_trans; [apply Hdig|]. apply Z.pow_le_mono_r; lia. }
    cbn [units] in Hu. change (-149 + 149) with 0 in Hu. rewrite Z.mul_1_r in Hu.
    assert (HU : 2 ^ 24 < 2 ^ 149) by (apply Z.pow_lt_mono_r; lia).
    assert (0 < 2 ^ 24) by (apply Z.pow_pos_nonneg; lia).
    destruct s; cbn [cond_Zopp] in Hu; nia. }
  destruct (mul_half_spec s m e Hb He) as (m2 & e2 & -> & Hb2 & Hu2).
  change (F32.add F32.zero (S754_finite s m2 e2)) with (S754_finite s m2 e2).
  pose proof (add_same_spec s m2 e2 z Hb2 Hz ltac:(lia)) as H. cbv zeta in H.
  destruct H as (Hv & Hf & Hur).
  destruct (F32.add (S754_finite s m2 e2) (S754_finite s m2 e2)) as [s'| | |s' m' e'];
    try discriminate.
  - exfalso. cbn [units] in Hur. assert (0 < 2 ^ 149) by (apply Z.pow_pos_nonneg; lia). nia.
  - apply valid_finite_units_inj; [exact Hv | exact Hb | lia].
Qed.

Lemma decode_frame_equal_channels (w : N) (b : list byte) :
  (1 <= w <= 3)%N -> length b = N.to_nat w ->
  decode_frame w 2 (F32.div F32.one (F32.of_Z (Z.of_N 2))) (b ++ b)
  = Ok (F32.of_Z (signed_sample w b)).
Proof.
  intros Hw Hlen.
  destruct (decode_sample_signed w b ltac:(lia) Hlen) as (_ & Hr).
  destruct (full_scale_bounds w Hw) as ((_ & H23) & _).
  assert (2 ^ 23 < 2 ^ 24) by (apply Z.pow_lt_mono_r; lia).
  pose proof (decode_frame_channels w 2 (F32.div F32.one (F32.of_Z (Z.of_N 2))) [b; b]
                ltac:(lia) eq_refl) as Hfr.
  cbn [concat] in Hfr. rewrite app_nil_r in Hfr.
  rewrite Hfr by (repeat constructor; assumption).
  unfold downmix. cbn [fold_left].
  change (F32.div F32.one (F32.of_Z (Z.of_N 2))) with half.
  rewrite downmix_equal_channels by lia. reflexivity.
Qed.


(** X16: at the widths 1 to 3 a frame of two channels that hold the same
    bytes is decoded to the value that a mono frame of these bytes is decoded
    to, the signed sample itself: the two halves add up without rounding. *)
Theorem X16_equal_channels_decode_as_mono (w : N) (b : list byte) :
  (1 <= w <= 3)%N -> length b = N.to_nat w ->
  decode_frame w 2 (F32.div F32.one (F32.of_Z (Z.of_N 2))) (b ++ b)
  = Ok (F32.of_Z (signed_sample w b)) /\
  decode_frame w 1 (F32.div F32.one (F32.of_Z (Z.of_N 1))) b
  = Ok (F32.of_Z (signed_sample w b)).
Proof.
  intros Hw Hlen. split; [now apply decode_frame_equal_channels|].
  destruct (decode_sample_signed w b ltac:(lia) Hlen) as (Hd & Hr).
  apply decode_frame_mono.
  - rewrite <- Hlen, firstn_all. exact Hd.
  - assert (full_scale w <= 2 ^ 31) by (apply Z.pow_le_mono_r; lia).
    assert (2 ^ 31 < 2 ^ 100) by (apply Z.pow_lt_mono_r; lia). lia.
Qed.

Lemma X16_equal_channels_witness :
  decode_frame 2 2 (F32.div F32.one (F32.of_Z (Z.of_N 2))) ([x00; xc0] ++ [x00; xc0])
  = Ok (F32.of_Z (signed_sample 2 [x00; xc0])) /\
  decode_frame 2 1 (F32.div F32.one (F32.of_Z (Z.of_N 1))) [x00; xc0]
  = Ok (F32.of_Z (signed_sample 2 [x00; xc0])).
Proof.
  apply (X16_equal_channels_decode_as_mono 2 [x00; xc0]).
  - lia.
  - reflexivity.
Defined.









